(** * httptoolkit-ui: Android Frida configuration and request breakpoint card

    A shallow embedding of the two view components

    - [AndroidFridaConfig] (device / target selection, activation tracking),
    - [ExchangeRequestBreakpointCard] (edits of a paused request),

    as pure functions over an explicit component state.  JavaScript runs the
    component single threaded: every action, reaction, timer tick and promise
    callback runs to completion, so concurrency is the interleaving of the
    events of [Frida.Event], each handled atomically. *)

From Stdlib Require Import Ascii.
From stdpp Require Import base strings list gmap.

Open Scope string_scope.
Open Scope list_scope.

(* ===================================================================== *)
(** * AndroidFridaConfig                                                   *)
(* ===================================================================== *)

Module Frida.

(** ** Data model *)

(** Modelled from the spec: the type of [FridaHost.state] is declared in
    [model/interception/frida], outside this excerpt.  Its values are the
    four states of the spec, the string literals the component compares
    [host.state] with. *)
Inductive HostState : Type :=
  | available
  | unavailable
  | launch_required
  | setup_required.

Global Instance HostState_eq_dec : EqDecision HostState.
Proof. solve_decision. Defined.

(** Modelled from the spec: [FridaHost] is declared in
    [model/interception/frida], outside this excerpt.  It has the fields
    [id], [name] and [state], the ones the component reads. *)
Record FridaHost : Type := mkHost {
  host_id : string;
  host_name : string;
  host_state : HostState;
}.

(** Modelled from the spec: [FridaTarget] is declared in
    [model/interception/frida], outside this excerpt.  It has the fields
    [id] and [name], the ones the component reads. *)
Record FridaTarget : Type := mkTarget {
  target_id : string;
  target_name : string;
}.

(** Modelled from the spec: [FridaActivationOptions] is declared in
    [model/interception/frida], outside this excerpt.  It is the union of
    the three object literals the component passes to
    [activateInterceptor]. *)
Inductive FridaActivationOptions : Type :=
  | Launch (hostId : string)                      (* { action: 'launch', hostId } *)
  | Setup (hostId : string)                       (* { action: 'setup', hostId } *)
  | Intercept (hostId : string) (targetId : string). (* { action: 'intercept', hostId, targetId } *)

(** The observable fields of the component. [fridaHosts] is the computed
    [props.interceptor.metadata?.hosts || []]. *)
Record Component : Type := mkComponent {
  fridaHosts : list FridaHost;
  fridaTargets : list FridaTarget;
  inProgressHostIds : list string;
  inProgressTargetIds : list string;
  selectedHostId : option string;      (* string | undefined *)
  searchInput : string;
}.

(** The callback attached with [.finally(...)] to an activation promise. *)
Inductive Finally : Type :=
  | PullHost (hostId : string)       (* _.pull(this.inProgressHostIds, hostId) *)
  | PullTarget (targetId : string).  (* _.pull(this.inProgressTargetIds, targetId) *)

(** One invocation of [props.activateInterceptor]: its argument, the
    component as it was when the service was invoked, the callback attached
    to the returned promise, and whether that promise has settled. *)
Record Activation : Type := mkActivation {
  act_options : FridaActivationOptions;
  act_seen : Component;
  act_finally : Finally;
  act_settled : bool;
}.

(** One call of [getDetailedInterceptorMetadata("android-frida", hostId)]
    made by [updateTargets], suspended at its [yield]. *)
Record Fetch : Type := mkFetch {
  fetch_hostId : string;
  fetch_done : bool;
}.

(** The component together with the promises it is waiting for, in the
    order in which the calls were made. *)
Record World : Type := mkWorld {
  comp : Component;
  activations : list Activation;
  fetches : list Fetch;
}.

(** ** A state monad over [World] *)

Definition M (A : Type) : Type := World → A * World.

Global Instance M_ret : MRet M := λ A a w, (a, w).
Global Instance M_bind : MBind M := λ A B f m w, let (a, w') := m w in f a w'.

Definition gets {A} (f : Component → A) : M A := λ w, (f (comp w), w).

Definition modify (f : Component → Component) : M unit :=
  λ w, (tt, mkWorld (f (comp w)) (activations w) (fetches w)).

(** The world after running a computation. *)
Definition exec {A} (m : M A) (w : World) : World := snd (m w).

(** ** Field assignments *)

Definition set_fridaHosts (v : list FridaHost) (c : Component) : Component :=
  mkComponent v (fridaTargets c) (inProgressHostIds c) (inProgressTargetIds c)
              (selectedHostId c) (searchInput c).

Definition set_fridaTargets (v : list FridaTarget) (c : Component) : Component :=
  mkComponent (fridaHosts c) v (inProgressHostIds c) (inProgressTargetIds c)
              (selectedHostId c) (searchInput c).

Definition set_inProgressHostIds (v : list string) (c : Component) : Component :=
  mkComponent (fridaHosts c) (fridaTargets c) v (inProgressTargetIds c)
              (selectedHostId c) (searchInput c).

Definition set_inProgressTargetIds (v : list string) (c : Component) : Component :=
  mkComponent (fridaHosts c) (fridaTargets c) (inProgressHostIds c) v
              (selectedHostId c) (searchInput c).

Definition set_selectedHostId (v : option string) (c : Component) : Component :=
  mkComponent (fridaHosts c) (fridaTargets c) (inProgressHostIds c)
              (inProgressTargetIds c) v (searchInput c).

Definition set_searchInput (v : string) (c : Component) : Component :=
  mkComponent (fridaHosts c) (fridaTargets c) (inProgressHostIds c)
              (inProgressTargetIds c) (selectedHostId c) v.

(** ** Array helpers *)

(** [array.push(x)]. *)
Definition push (l : list string) (x : string) : list string := l ++ [x].

(** lodash [_.pull(array, value)]: removes every element equal to [value],
    keeping the others in place. *)
Definition pull (l : list string) (v : string) : list string :=
  filter (λ x, x ≠ v) l.

(** The number of entries of an array that are equal to [x]. *)
Definition occurrences (l : list string) (x : string) : nat :=
  length (filter (λ y, y = x) l).

(** [array.includes(x)]. *)
Definition includes (l : list string) (x : string) : bool := bool_decide (x ∈ l).

(** JavaScript truthiness of a [string | undefined]: [undefined] and the
    empty string are falsy. *)
Definition truthy (v : option string) : bool :=
  match v with
  | Some s => bool_decide (s ≠ "")
  | None => false
  end.

(** ** Computed values *)

(** [get selectedHost()]:
    [if (!this.selectedHostId) return;
     return this.fridaHosts.find(host =>
       host.id === this.selectedHostId && host.state !== 'unavailable');] *)
Definition selectedHost (c : Component) : option FridaHost :=
  if truthy (selectedHostId c) then
    find (λ host, bool_decide (Some (host_id host) = selectedHostId c)
                  && bool_decide (host_state host ≠ unavailable))
         (fridaHosts c)
  else None.

(** The host that [selectHost(hostId)] works on: [this.selectedHost], read
    right after the assignment [this.selectedHostId = hostId]. *)
Definition selecting (c : Component) (hostId : string) : option FridaHost :=
  selectedHost (set_selectedHostId (Some hostId) c).

(** ** External calls *)

(** [this.props.activateInterceptor(options).finally(action(fin))]: the call
    is recorded with the component as it is at that moment. *)
Definition activateInterceptor (options : FridaActivationOptions) (fin : Finally) : M unit :=
  λ w, (tt, mkWorld (comp w)
                    (activations w ++ [mkActivation options (comp w) fin false])
                    (fetches w)).

(** [yield getDetailedInterceptorMetadata("android-frida", hostId)]: the
    generator is suspended until the response arrives. *)
Definition getDetailedInterceptorMetadata (hostId : string) : M unit :=
  λ w, (tt, mkWorld (comp w) (activations w) (fetches w ++ [mkFetch hostId false])).

(** ** Methods *)

(** [updateTargets], up to its [yield]. *)
Definition updateTargets : M unit :=
  host ← gets selectedHost;
  match host with
  | None => modify (set_fridaTargets [])
  | Some h => getDetailedInterceptorMetadata (host_id h)
  end.

(** [updateTargets], resumed with the value of the [yield]:
    [this.fridaTargets = result?.targets ?? []]. *)
Definition updateTargets_resume (result : option (list FridaTarget)) : M unit :=
  modify (set_fridaTargets (default [] result)).

Definition deselectHost : M unit :=
  modify (set_selectedHostId None).

Definition selectHost (hostId : string) : M unit :=
  modify (set_selectedHostId (Some hostId));;
  host ← gets selectedHost;
  match host_state <$> host with
  | Some available =>
      modify (set_searchInput "");;
      updateTargets
  | Some launch_required =>
      modify (λ c, set_inProgressHostIds (push (inProgressHostIds c) hostId) c);;
      activateInterceptor (Launch hostId) (PullHost hostId)
  | Some setup_required =>
      modify (λ c, set_inProgressHostIds (push (inProgressHostIds c) hostId) c);;
      activateInterceptor (Setup hostId) (PullHost hostId)
  | _ => mret tt
  end.

Definition interceptTarget (targetId : string) : M unit :=
  host ← gets selectedHost;
  match host with
  | None => mret tt
  | Some h =>
      modify (λ c, set_inProgressTargetIds (push (inProgressTargetIds c) targetId) c);;
      activateInterceptor (Intercept (host_id h) targetId) (PullTarget targetId)
  end.

Definition onSearchChange (value : string) : M unit :=
  modify (set_searchInput value).

(** The body of the [autorun] registered in [componentDidMount]:
    [if (this.selectedHostId &&
         !this.fridaHosts.some(host => host.id === this.selectedHostId))
       this.deselectHost();] *)
Definition autorun : M unit :=
  c ← gets id;
  if truthy (selectedHostId c)
     && negb (existsb (λ host, bool_decide (Some (host_id host) = selectedHostId c))
                      (fridaHosts c))
  then deselectHost
  else mret tt.

(** [componentDidMount]; the interval timer it installs is the event
    [EvTick] below. *)
Definition componentDidMount : M unit :=
  hosts ← gets fridaHosts;
  match hosts with
  | [h] => if bool_decide (host_state h = available)
           then selectHost (host_id h) else mret tt
  | _ => mret tt
  end;;
  autorun;;
  updateTargets.

(** The callback of [.finally]: it ignores how the promise settled. *)
Definition run_finally (fin : Finally) : M unit :=
  match fin with
  | PullHost hostId =>
      modify (λ c, set_inProgressHostIds (pull (inProgressHostIds c) hostId) c)
  | PullTarget targetId =>
      modify (λ c, set_inProgressTargetIds (pull (inProgressTargetIds c) targetId) c)
  end.

Inductive Outcome : Type := Resolved | Rejected.

Definition settled (a : Activation) : Activation :=
  mkActivation (act_options a) (act_seen a) (act_finally a) true.

(** The [k]-th activation promise settles.  A promise settles once; the
    callback runs for either outcome. *)
Definition settleActivation (k : nat) (o : Outcome) : M unit :=
  λ w,
    match activations w !! k with
    | Some a =>
        if act_settled a then (tt, w)
        else run_finally (act_finally a)
               (mkWorld (comp w) (<[k := settled a]> (activations w)) (fetches w))
    | None => (tt, w)
    end.

(** The [k]-th metadata request is answered.  [Some result] resumes the
    generator with [result] ([result] itself may be [undefined]); [None] is
    a rejected request, which ends the generator without an assignment. *)
Definition targetsResponse (k : nat) (r : option (option (list FridaTarget))) : M unit :=
  λ w,
    match fetches w !! k with
    | Some f =>
        if fetch_done f then (tt, w)
        else
          let w' := mkWorld (comp w) (activations w)
                            (<[k := mkFetch (fetch_hostId f) true]> (fetches w)) in
          match r with
          | Some result => updateTargets_resume result w'
          | None => (tt, w')
          end
    | None => (tt, w)
    end.

(** ** Events of a mounted component *)

Inductive Event : Type :=
  | EvSelectHost (hostId : string)          (* click on a host *)
  | EvDeselectHost                          (* back button *)
  | EvInterceptTarget (targetId : string)   (* click on a target *)
  | EvSearchChange (value : string)
  | EvHostsUpdate (hosts : list FridaHost)   (* new interceptor metadata *)
  | EvTick                                  (* setInterval(updateTargets, 2000) *)
  | EvActivationSettled (k : nat) (o : Outcome)
  | EvTargetsResponse (k : nat) (r : option (option (list FridaTarget))).

(** Each event runs to completion; a change of [selectedHostId] or of
    [fridaHosts] then re-runs the [autorun]. *)
Definition handle (e : Event) : M unit :=
  match e with
  | EvSelectHost hostId => selectHost hostId;; autorun
  | EvDeselectHost => deselectHost;; autorun
  | EvInterceptTarget targetId => interceptTarget targetId
  | EvSearchChange value => onSearchChange value
  | EvHostsUpdate hosts => modify (set_fridaHosts hosts);; autorun
  | EvTick => updateTargets
  | EvActivationSettled k o => settleActivation k o
  | EvTargetsResponse k r => targetsResponse k r
  end.

Fixpoint run (es : list Event) (w : World) : World :=
  match es with
  | [] => w
  | e :: es' => run es' (exec (handle e) w)
  end.

(** The state of a freshly constructed component. *)
Definition initial (hosts : list FridaHost) : World :=
  mkWorld (mkComponent hosts [] [] [] None "") [] [].

(** What [render] shows as [activating]. *)
Definition hostActivating (c : Component) (hostId : string) : bool :=
  includes (inProgressHostIds c) hostId.

Definition targetActivating (c : Component) (targetId : string) : bool :=
  includes (inProgressTargetIds c) targetId.

(** The component right after it has been mounted with the given hosts. *)
Definition mounted (hosts : list FridaHost) : World :=
  exec componentDidMount (initial hosts).

(** ** Invariants of a mounted component *)

(** A non-empty selected id is the id of a listed host. *)
Definition selected_is_listed (w : World) : Prop :=
  ∀ sid, selectedHostId (comp w) = Some sid → sid ≠ "" →
         ∃ h, h ∈ fridaHosts (comp w) ∧ host_id h = sid.

(** The service was invoked while a host was selected, for that host, with
    the action of its state, with the identifier already in progress and
    with the callback that removes this identifier. *)
Definition call_valid (a : Activation) : Prop :=
  ∃ h, selectedHost (act_seen a) = Some h
       ∧ match act_options a with
         | Launch hostId =>
             host_id h = hostId ∧ host_state h = launch_required
             ∧ hostId ∈ inProgressHostIds (act_seen a) ∧ act_finally a = PullHost hostId
         | Setup hostId =>
             host_id h = hostId ∧ host_state h = setup_required
             ∧ hostId ∈ inProgressHostIds (act_seen a) ∧ act_finally a = PullHost hostId
         | Intercept hostId targetId =>
             host_id h = hostId
             ∧ targetId ∈ inProgressTargetIds (act_seen a)
             ∧ act_finally a = PullTarget targetId
         end.

(** Some promise with the callback [fin] has not settled yet. *)
Definition pending (w : World) (fin : Finally) : Prop :=
  ∃ k a, activations w !! k = Some a ∧ act_settled a = false ∧ act_finally a = fin.

(** Every identifier in progress is waiting for a promise. *)
Definition markers_pending (w : World) : Prop :=
  (∀ hostId, hostId ∈ inProgressHostIds (comp w) → pending w (PullHost hostId))
  ∧ (∀ targetId, targetId ∈ inProgressTargetIds (comp w) → pending w (PullTarget targetId)).

Definition invariant (w : World) : Prop :=
  selected_is_listed w ∧ Forall call_valid (activations w) ∧ markers_pending w.

(** ** String helpers used by [render] *)

(** [s.includes(sub)]: [sub] occurs in [s] at some position. *)
Fixpoint str_includes (s sub : string) : bool :=
  String.prefix sub s
  || match s with
     | EmptyString => false
     | String _ s' => str_includes s' sub
     end.

(** [\d]: an ASCII digit. *)
Definition is_digit (a : Ascii.ascii) : bool :=
  (48 <=? Ascii.nat_of_ascii a)%nat && (Ascii.nat_of_ascii a <=? 57)%nat.

(** A string of digits, possibly empty. *)
Fixpoint all_digits (s : string) : bool :=
  match s with
  | EmptyString => true
  | String a s' => is_digit a && all_digits s'
  end.

(** A non-empty string of digits: what [\d+] matches. *)
Definition digit_string (s : string) : bool :=
  match s with
  | EmptyString => false
  | String _ _ => all_digits s
  end.

(** The rest of the string after its leading digits. *)
Fixpoint skip_digits (s : string) : string :=
  match s with
  | EmptyString => EmptyString
  | String a s' => if is_digit a then skip_digits s' else s
  end.

(** [\d+] at the head of the string; the result is what follows the
    digits. A digit sequence is never followed by a digit in the pattern
    below, so taking all digits loses no match. *)
Definition digits1 (s : string) : option string :=
  match s with
  | EmptyString => None
  | String a s' => if is_digit a then Some (skip_digits s') else None
  end.

(** One literal character at the head of the string. *)
Definition literal (c : Ascii.ascii) (s : string) : option string :=
  match s with
  | EmptyString => None
  | String a s' => if Ascii.eqb a c then Some s' else None
  end.

(** [/\d+\.\d+\.\d+\.\d+:\d+/] matched at the head of the string. *)
Definition address_here (s : string) : bool :=
  match
    s ← digits1 s; s ← literal "." s;
    s ← digits1 s; s ← literal "." s;
    s ← digits1 s; s ← literal "." s;
    s ← digits1 s; s ← literal ":" s;
    digits1 s
  with
  | Some _ => true
  | None => false
  end.

(** [id.match(/\d+\.\d+\.\d+\.\d+:\d+/)] is not null: the pattern matches
    at some position. *)
Fixpoint matches_address (s : string) : bool :=
  address_here s
  || match s with
     | EmptyString => false
     | String _ s' => matches_address s'
     end.

(** ** [render] *)

(** The text [render] prints for [host.state]. *)
Definition state_text (st : HostState) : string :=
  match st with
  | available => "available"
  | unavailable => "unavailable"
  | launch_required => "launch-required"
  | setup_required => "setup-required"
  end.

(** The [status] of an entry of [InterceptionTargetList]. *)
Inductive Status : Type :=
  | status_activating
  | status_available
  | status_unavailable.

(** The icons of the entries. *)
Inductive Icon : Type :=
  | icon_spinner            (* ['fas', 'spinner'] *)
  | icon_window_maximize    (* ['far', 'window-maximize'] *)
  | icon_network_wired      (* ['fas', 'network-wired'] *)
  | icon_mobile_alt.        (* ['fas', 'mobile-alt'] *)

(** One element of the [targets] prop of [InterceptionTargetList]; the
    [content] paragraph is an optional icon followed by its text children:
    a space, then the name (and, for a host, a colon and the state). *)
Record ListEntry : Type := mkEntry {
  entry_id : string;
  entry_title : string;
  entry_status : Status;
  entry_icon : option Icon;
  entry_text : string;
}.

(** What [render] returns: the target list with the back button and the
    search box, whose clicks go to [interceptTarget], or the host list,
    whose clicks go to [selectHost]. *)
Inductive View : Type :=
  | TargetView (searchValue : string) (targets : list ListEntry)
  | HostView (targets : list ListEntry).

Section Render.

(** [String.prototype.toLowerCase], which depends on the Unicode tables
    of the JavaScript engine. *)
Variable toLowerCase : string → string.

(** [this.fridaTargets.filter(({ name }) =>
      name.toLowerCase().includes(lowercaseSearchInput))]. *)
Definition filteredTargets (c : Component) : list FridaTarget :=
  let lowercaseSearchInput := toLowerCase (searchInput c) in
  List.filter (λ t, str_includes (toLowerCase (target_name t)) lowercaseSearchInput)
              (fridaTargets c).

Definition target_entry (c : Component) (target : FridaTarget) : ListEntry :=
  let activating := includes (inProgressTargetIds c) (target_id target) in
  mkEntry (target_id target)
          ("Android app " +:+ target_name target)
          (if activating then status_activating else status_available)
          (if activating then Some icon_spinner else None)
          (" " +:+ target_name target).

Definition host_entry (c : Component) (host : FridaHost) : ListEntry :=
  let activating := includes (inProgressHostIds c) (host_id host) in
  mkEntry (host_id host)
          ("Android device " +:+ host_name host +:+ " in state "
           +:+ state_text (host_state host))
          (if activating then status_activating
           else if bool_decide (host_state host = unavailable) then status_unavailable
           else status_available)
          (Some (if activating then icon_spinner
                 else if str_includes (host_id host) "emulator-" then icon_window_maximize
                 else if matches_address (host_id host) then icon_network_wired
                 else icon_mobile_alt))
          (" " +:+ host_name host +:+ ": " +:+ state_text (host_state host)).

Definition render (c : Component) : View :=
  match selectedHost c with
  | Some _ => TargetView (searchInput c) (map (target_entry c) (filteredTargets c))
  | None => HostView (map (host_entry c) (fridaHosts c))
  end.

End Render.

End Frida.

(* ===================================================================== *)
(** * ExchangeRequestBreakpointCard                                        *)
(* ===================================================================== *)

Module BreakpointCard.

(** ** Headers *)

(** Modelled from the spec: [HeadersArray] is declared in
    [../common/editable-headers], outside this excerpt.  It is the ordered
    list of (name, value) pairs edited by [EditableHeaders]. *)
Definition HeadersArray : Type := list (string * string).

(** Modelled from the spec: the keyed header representation ([Headers],
    [RequestHeaders]) is declared outside this excerpt.  The spec keeps a
    repeated header name as repeated entries of an ordered sequence, not as
    one key of a mapping with unique keys: the headers are the ordered
    sequence of their entries, each with the name it is keyed by and its
    value. *)
Record Header : Type := mkHeader {
  header_name : string;
  header_value : string;
}.

Global Instance Header_eq_dec : EqDecision Header.
Proof. solve_decision. Defined.

Definition Headers : Type := list Header.

(** Modelled from the spec: [headersToHeadersArray] of
    [../common/editable-headers] is not part of this excerpt.  It lists the
    entries in their order as (name, value) pairs. *)
Definition headersToHeadersArray (headers : Headers) : HeadersArray :=
  map (λ header, (header_name header, header_value header)) headers.

(** Modelled from the spec: [headersArrayToHeaders] of
    [../common/editable-headers] is not part of this excerpt.  It converts
    the ordered pairs back to the keyed representation, one entry for each
    pair, in the same order; a repeated name gives repeated entries. *)
Definition headersArrayToHeaders (headers : HeadersArray) : Headers :=
  map (λ '(name, value), mkHeader name value) headers.

(** ** The in-progress result *)

(** Modelled from the spec: [MockttpBreakpointRequestResult] is declared in
    [../../types], outside this excerpt.  The spec gives it the fields
    method and url, which are strings, and headers; these are the values a
    property of the in-progress result can have. *)
Inductive Value : Type :=
  | VString (s : string)
  | VHeaders (h : Headers).

Global Instance Value_eq_dec : EqDecision Value.
Proof. solve_decision. Defined.

(** The in-progress result is a JavaScript object: a map from property
    names to values.  A field that is absent from the map is [undefined]. *)
Abbreviation Result := (gmap string Value).

(** [Object.assign(target, source)]: every property of [source] is copied
    onto [target], replacing a property of the same name. *)
Definition assign (target source : Result) : Result := source ∪ target.

(** ** Event handlers *)

(** Each handler is given [requestBreakpoint.inProgressResult] and the new
    value, and returns the arguments of its calls of [props.onChange], in
    order. *)

Definition onMethodChanged (inProgressResult : Result) (method : string) : list Result :=
  if bool_decide (inProgressResult !! "method" = Some (VString method))
  then []
  else [assign (assign ∅ inProgressResult) {["method" := VString method]}].

Definition onUrlChanged (inProgressResult : Result) (url : string) : list Result :=
  [assign (assign ∅ inProgressResult) {["url" := VString url]}].

Definition onHeadersChanged (inProgressResult : Result) (headers : HeadersArray) : list Result :=
  [assign (assign ∅ inProgressResult)
          {["headers" := VHeaders (headersArrayToHeaders headers)]}].

(** The three kinds of edit. *)
Inductive Edit : Type :=
  | MethodChange (method : string)
  | UrlChange (url : string)
  | HeadersChange (headers : HeadersArray).

Definition edit_field (e : Edit) : string :=
  match e with
  | MethodChange _ => "method"
  | UrlChange _ => "url"
  | HeadersChange _ => "headers"
  end.

Definition edit_value (e : Edit) : Value :=
  match e with
  | MethodChange method => VString method
  | UrlChange url => VString url
  | HeadersChange headers => VHeaders (headersArrayToHeaders headers)
  end.

Definition on_edit (inProgressResult : Result) (e : Edit) : list Result :=
  match e with
  | MethodChange method => onMethodChanged inProgressResult method
  | UrlChange url => onUrlChanged inProgressResult url
  | HeadersChange headers => onHeadersChanged inProgressResult headers
  end.

(** The pair list [render] hands to [EditableHeaders]:
    [headersToHeadersArray(inProgressResult.headers!)]. *)
Definition rendered_headers (inProgressResult : Result) : option HeadersArray :=
  match inProgressResult !! "headers" with
  | Some (VHeaders h) => Some (headersToHeadersArray h)
  | _ => None
  end.

(** ** [render] *)

(** An [<option>] of the method select. *)
Record MethodOption : Type := mkOption {
  option_key : string;
  option_value : option string;    (* [value={undefined}] for a custom method *)
  option_label : string;
}.

Section MethodSelect.

(** [validMethods]: the names of the [Method] enum of mockttp, which is
    declared outside this excerpt. *)
Variable validMethods : list string.

(** The children of [MethodSelect]: an extra option for a method that is
    not a valid one, then one option for each valid method. *)
Definition method_options (method : string) : list MethodOption :=
  (if bool_decide (method ∈ validMethods) then []
   else [mkOption method None method])
  ++ map (λ methodOption, mkOption methodOption (Some methodOption) methodOption)
         validMethods.

End MethodSelect.

(** U+2008, PUNCTUATION SPACE, in UTF-8. *)
Definition punctuation_space : string :=
  String (Ascii.ascii_of_nat 226)
         (String (Ascii.ascii_of_nat 128) (String (Ascii.ascii_of_nat 136) EmptyString)).

(** [s.replace(/\./g, ' . ')]. A full stop is one byte in UTF-8
    and is no part of another character, so the replacement can be done
    byte by byte. *)
Fixpoint space_dots (s : string) : string :=
  match s with
  | EmptyString => EmptyString
  | String a s' =>
      if Ascii.eqb a "."%char
      then punctuation_space +:+ String a (punctuation_space +:+ space_dots s')
      else String a (space_dots s')
  end.

(** The ASCII characters of a string: the bytes below 128. *)
Fixpoint ascii_part (s : string) : string :=
  match s with
  | EmptyString => EmptyString
  | String a s' =>
      if (nat_of_ascii a <? 128)%nat then String a (ascii_part s') else ascii_part s'
  end.

(** The hostname shown in the pill:
    [(request.hostname || '').replace(/\./g, ' . ')]. *)
Definition pill_hostname (hostname : option string) : string :=
  space_dots (default "" hostname).

End BreakpointCard.

(* ===================================================================== *)
(** * Concrete scenarios                                                   *)
(* ===================================================================== *)

Module Scenario.
Import Frida.

Definition pixel : FridaHost := mkHost "A" "Pixel" available.
Definition pixel_gone : FridaHost := mkHost "A" "Pixel" unavailable.
Definition nexus : FridaHost := mkHost "B" "Nexus" launch_required.
Definition tablet : FridaHost := mkHost "C" "Tablet" setup_required.

Definition browser : FridaTarget := mkTarget "com.android.chrome" "Chrome".

(** A mounted component that knows three hosts and has nothing selected. *)
Definition idle : World := initial [pixel; nexus; tablet].

(** Host "A" is selected and its targets have been loaded. *)
Definition browsing : World :=
  run [EvSelectHost "A"; EvTargetsResponse 0 (Some (Some [browser]))] idle.

(** A paused request, with a repeated header name. *)
Definition paused_headers : BreakpointCard.Headers :=
  [BreakpointCard.mkHeader "host" "example.com";
   BreakpointCard.mkHeader "cookie" "a=1";
   BreakpointCard.mkHeader "accept" "text/html";
   BreakpointCard.mkHeader "cookie" "b=2";
   BreakpointCard.mkHeader "accept" "*/*"].

Definition paused : gmap string BreakpointCard.Value :=
  {[ "method" := BreakpointCard.VString "GET";
     "url" := BreakpointCard.VString "https://example.com/";
     "headers" := BreakpointCard.VHeaders paused_headers ]}.

(** An ASCII stand-in for [toLowerCase]. *)
Definition lower_ascii (a : ascii) : ascii :=
  if (65 <=? nat_of_ascii a)%nat && (nat_of_ascii a <=? 90)%nat
  then ascii_of_nat (nat_of_ascii a + 32)
  else a.

Fixpoint lower (s : string) : string :=
  match s with
  | EmptyString => EmptyString
  | String a s' => String (lower_ascii a) (lower s')
  end.

Definition maps : FridaTarget := mkTarget "com.google.android.apps.maps" "Maps".

(** The same as [browsing], with two targets loaded. *)
Definition browsing_two : World :=
  run [EvSelectHost "A"; EvTargetsResponse 0 (Some (Some [browser; maps]))] idle.

End Scenario.

(* ===================================================================== *)
(** * Properties of AndroidFridaConfig                                     *)
(* ===================================================================== *)

Module FridaProps.
Import Frida.

(** Unfolds one step of the component down to record operations. *)
Ltac step_m :=
  unfold exec, handle, componentDidMount, selectHost, deselectHost,
    interceptTarget, updateTargets, updateTargets_resume, onSearchChange,
    autorun, run_finally, activateInterceptor, getDetailedInterceptorMetadata,
    selecting, selectedHost, modify, gets, mbind, M_bind, mret, M_ret;
  cbn [fst snd comp activations fetches fridaHosts fridaTargets
       inProgressHostIds inProgressTargetIds selectedHostId searchInput
       set_fridaHosts set_fridaTargets set_inProgressHostIds
       set_inProgressTargetIds set_selectedHostId set_searchInput].

(** ** [_.pull] and [push] *)

Lemma elem_of_pull (l : list string) (v x : string) :
  x ∈ pull l v ↔ x ≠ v ∧ x ∈ l.
Proof. unfold pull. by rewrite list_elem_of_filter. Qed.

Lemma pull_removes (l : list string) (v : string) : v ∉ pull l v.
Proof. rewrite elem_of_pull. tauto. Qed.

Lemma elem_of_push (l : list string) (x y : string) :
  y ∈ push l x ↔ y ∈ l ∨ y = x.
Proof. unfold push. rewrite elem_of_app, list_elem_of_singleton. tauto. Qed.

Lemma includes_true (l : list string) (x : string) :
  includes l x = true ↔ x ∈ l.
Proof. unfold includes. apply bool_decide_eq_true. Qed.

Lemma includes_false (l : list string) (x : string) :
  includes l x = false ↔ x ∉ l.
Proof. unfold includes. apply bool_decide_eq_false. Qed.

(** ** The computed [selectedHost] *)

Lemma find_None_iff {A} (f : A → bool) (l : list A) :
  find f l = None ↔ ∀ x, x ∈ l → f x = false.
Proof.
  split.
  - intros Hf x Hx. apply (find_none f l Hf). by apply list_elem_of_In.
  - intros Hall. destruct (find f l) as [x|] eqn:Hf; [|done].
    apply find_some in Hf as [Hin Hfx].
    apply list_elem_of_In, Hall in Hin. congruence.
Qed.

Lemma truthy_Some (v : option string) :
  truthy v = true ↔ ∃ s, v = Some s ∧ s ≠ "".
Proof.
  destruct v as [s|]; simpl.
  - rewrite bool_decide_eq_true. split; [eauto|]. by intros (? & [= <-] & ?).
  - split; [done|]. by intros (? & ? & ?).
Qed.

(** A selected host is a host of the list that carries the selected id and
    is not 'unavailable'; the selected id is then a non-empty string. *)
Lemma selectedHost_Some (c : Component) (h : FridaHost) :
  selectedHost c = Some h →
  selectedHostId c = Some (host_id h) ∧ host_id h ≠ ""
  ∧ h ∈ fridaHosts c ∧ host_state h ≠ unavailable.
Proof.
  unfold selectedHost. destruct (truthy (selectedHostId c)) eqn:Ht; [|done].
  intros Hf. apply find_some in Hf as [Hin Hp].
  apply andb_true_iff in Hp as [Hid Hst].
  apply bool_decide_eq_true in Hid, Hst.
  apply truthy_Some in Ht as (s & Hs & Hne).
  rewrite Hs in Hid. injection Hid as ->.
  repeat split; [done | done | by apply list_elem_of_In | done].
Qed.

Lemma selectedHost_None_unselected (c : Component) :
  selectedHostId c = None → selectedHost c = None.
Proof. unfold selectedHost. by intros ->. Qed.

(** No host of the list carries the selected id with a state other than
    'unavailable': nothing is selected. *)
Lemma selectedHost_None_invalid (c : Component) (sid : string) :
  selectedHostId c = Some sid →
  (∀ h, h ∈ fridaHosts c → host_id h = sid → host_state h = unavailable) →
  selectedHost c = None.
Proof.
  intros Hs Hall. unfold selectedHost.
  destruct (truthy (selectedHostId c)); [|done].
  apply find_None_iff. intros h Hin. rewrite Hs.
  destruct (decide (host_id h = sid)) as [Heq|Hne].
  - rewrite (Hall h Hin Heq). rewrite andb_false_iff. right.
    by apply bool_decide_eq_false; intros ?.
  - rewrite andb_false_iff. left. apply bool_decide_eq_false. congruence.
Qed.

(** With ids that identify hosts, the lookup finds the host of that id. *)
Lemma selectedHost_member (c : Component) (h : FridaHost) :
  NoDup (host_id <$> fridaHosts c) →
  h ∈ fridaHosts c → host_id h ≠ "" → host_state h ≠ unavailable →
  selectedHostId c = Some (host_id h) →
  selectedHost c = Some h.
Proof.
  intros Hnd Hin Hne Hst Hs. unfold selectedHost. rewrite Hs. simpl.
  rewrite bool_decide_eq_true_2 by done.
  induction (fridaHosts c) as [|h' l IH]; [by apply elem_of_nil in Hin|].
  rewrite fmap_cons in Hnd. apply NoDup_cons in Hnd as [Hnotin Hnd].
  apply elem_of_cons in Hin as [<-|Hin]; simpl.
  - by rewrite !bool_decide_eq_true_2.
  - rewrite (bool_decide_eq_false_2 (Some (host_id h') = Some (host_id h))).
    + simpl. by apply IH.
    + intros [= Heq]. apply Hnotin. rewrite Heq. by apply list_elem_of_fmap_2.
Qed.

(** ** The autorun *)

Lemma autorun_spec (w : World) :
  exec autorun w =
    if truthy (selectedHostId (comp w))
       && negb (existsb (λ host, bool_decide (Some (host_id host) = selectedHostId (comp w)))
                        (fridaHosts (comp w)))
    then mkWorld (set_selectedHostId None (comp w)) (activations w) (fetches w)
    else w.
Proof.
  unfold exec, autorun, deselectHost, modify, gets, mbind, M_bind, mret, M_ret.
  cbn [fst snd]. by destruct (truthy _ && negb _).
Qed.

Lemma existsb_id_true (hosts : list FridaHost) (sid : string) :
  existsb (λ host, bool_decide (Some (host_id host) = Some sid)) hosts = true
  ↔ ∃ h, h ∈ hosts ∧ host_id h = sid.
Proof.
  rewrite existsb_exists. split.
  - intros (h & Hin & Hb). apply bool_decide_eq_true in Hb as [= Heq].
    exists h. split; [by apply list_elem_of_In | done].
  - intros (h & Hin & <-). exists h. split; [by apply list_elem_of_In|].
    by apply bool_decide_eq_true.
Qed.

(** ** Discovery updates *)

Lemma hosts_update_spec (w : World) (hosts : list FridaHost) :
  exec (handle (EvHostsUpdate hosts)) w =
    if truthy (selectedHostId (comp w))
       && negb (existsb (λ host, bool_decide (Some (host_id host) = selectedHostId (comp w)))
                        hosts)
    then mkWorld (set_selectedHostId None (set_fridaHosts hosts (comp w)))
                 (activations w) (fetches w)
    else mkWorld (set_fridaHosts hosts (comp w)) (activations w) (fetches w).
Proof.
  step_m.
  by destruct (truthy _ && negb _).
Qed.

(** C1, as stated, fails: the selected host "A" is still listed, in state
    'unavailable', after the update; the autorun only looks for the id, so
    [selectedHostId] stays "A". *)
Lemma discovery_update_unavailable_keeps_id :
  ¬ (∀ (w : World) (hosts : list FridaHost) (sid : string),
       selectedHostId (comp w) = Some sid →
       ((∀ h, h ∈ hosts → host_id h ≠ sid)
        ∨ (∃ h, h ∈ hosts ∧ host_id h = sid ∧ host_state h = unavailable)) →
       selectedHostId (comp (exec (handle (EvHostsUpdate hosts)) w)) = None).
Proof.
  intros Hclaim.
  specialize (Hclaim Scenario.browsing [Scenario.pixel_gone] "A" eq_refl).
  assert (Hgone : ∃ h, h ∈ [Scenario.pixel_gone] ∧ host_id h = "A"
                       ∧ host_state h = unavailable).
  { exists Scenario.pixel_gone. repeat split. apply list_elem_of_here. }
  specialize (Hclaim (or_intror Hgone)).
  vm_compute in Hclaim. discriminate Hclaim.
Qed.

(** C1 (amended): on every discovery update, with a selected id [sid]:
    - if [sid] is a non-empty id that no host of the new list carries,
      [selectedHostId] is cleared by the update itself;
    - if [sid] is absent, or every host carrying it is 'unavailable', the
      component has no selected host ([selectedHost] is undefined) right
      after the update;
    - if some host of the new list carries [sid], whatever its state,
      [selectedHostId] is kept;
    - if [sid] is not empty and some host of the new list carries it with
      a state other than 'unavailable', the component has a selected host
      right after the update: a host of the new list with that id that is
      not 'unavailable'. *)
Theorem discovery_update_reset (w : World) (hosts : list FridaHost) (sid : string) :
  selectedHostId (comp w) = Some sid →
  let w' := exec (handle (EvHostsUpdate hosts)) w in
  fridaHosts (comp w') = hosts
  ∧ (sid ≠ "" → (∀ h, h ∈ hosts → host_id h ≠ sid) →
     selectedHostId (comp w') = None)
  ∧ ((∀ h, h ∈ hosts → host_id h = sid → host_state h = unavailable) →
     selectedHost (comp w') = None)
  ∧ ((∃ h, h ∈ hosts ∧ host_id h = sid) →
     selectedHostId (comp w') = Some sid)
  ∧ (sid ≠ "" →
     (∃ h, h ∈ hosts ∧ host_id h = sid ∧ host_state h ≠ unavailable) →
     ∃ h', selectedHost (comp w') = Some h'
           ∧ h' ∈ hosts ∧ host_id h' = sid ∧ host_state h' ≠ unavailable).
Proof.
  intros Hsel w'. subst w'. rewrite hosts_update_spec, Hsel.
  destruct (existsb _ hosts) eqn:Hex.
  - rewrite andb_false_r. cbn. split; [done|].
    apply existsb_id_true in Hex as (h & Hin & Hid).
    split; [|split; [|split]].
    + intros _ Habs. by destruct (Habs h Hin).
    + intros Hall. by apply (selectedHost_None_invalid _ sid).
    + done.
    + intros Hne (h1 & Hin1 & Hid1 & Hst1).
      destruct (selectedHost (set_fridaHosts hosts (comp w))) as [h'|] eqn:Hfound.
      * exists h'. split; [done|].
        apply selectedHost_Some in Hfound as (Hid' & _ & Hin' & Hst').
        cbn in Hid', Hin'. rewrite Hsel in Hid'. injection Hid' as Hid'. by repeat split.
      * exfalso. unfold selectedHost in Hfound. cbn in Hfound. rewrite Hsel in Hfound.
        cbn in Hfound. rewrite bool_decide_eq_true_2 in Hfound by done.
        pose proof (proj1 (find_None_iff _ _) Hfound h1 Hin1) as Hf. cbn beta in Hf.
        rewrite Hid1 in Hf.
        rewrite (bool_decide_eq_true_2 (Some sid = Some sid)) in Hf by done.
        rewrite (bool_decide_eq_true_2 (host_state h1 ≠ unavailable)) in Hf by done.
        discriminate Hf.
  - assert (Hnone : ¬ ∃ h, h ∈ hosts ∧ host_id h = sid).
    { intros Hsome. apply existsb_id_true in Hsome. congruence. }
    assert (Hlast : sid ≠ "" →
      (∃ h, h ∈ hosts ∧ host_id h = sid ∧ host_state h ≠ unavailable) → False).
    { intros _ (h & Hin & Hid & _). apply Hnone. eauto. }
    rewrite andb_true_r. destruct (truthy (Some sid)) eqn:Ht; cbn.
    + split; [done|]. split; [done|]. split; [done|]. split.
      * intros Hsome. by destruct Hnone.
      * intros Hne Hsome. by destruct (Hlast Hne Hsome).
    + split; [done|]. split; [|split; [|split]].
      * intros Hne _. simpl in Ht. apply bool_decide_eq_false in Ht. tauto.
      * intros Hall. by apply (selectedHost_None_invalid _ sid).
      * done.
      * intros Hne Hsome. by destruct (Hlast Hne Hsome).
Qed.

(** The selected host "A" vanishes from the list: the id is cleared.  It
    turns 'unavailable': nothing is selected any more, and when the next
    list reports it available it is the selected host again. *)
Lemma discovery_update_reset_witness :
  selectedHostId (comp (exec (handle (EvHostsUpdate [Scenario.nexus])) Scenario.browsing)) = None
  ∧ selectedHost (comp (exec (handle (EvHostsUpdate [Scenario.pixel_gone])) Scenario.browsing)) = None
  ∧ ∃ h', selectedHost
            (comp (exec (handle (EvHostsUpdate [Scenario.pixel]))
                        (exec (handle (EvHostsUpdate [Scenario.pixel_gone])) Scenario.browsing)))
          = Some h' ∧ host_id h' = "A".
Proof.
  split; [|split].
  - apply (discovery_update_reset Scenario.browsing [Scenario.nexus] "A" eq_refl).
    + discriminate.
    + intros h Hin. apply list_elem_of_singleton in Hin as ->. discriminate.
  - apply (discovery_update_reset Scenario.browsing [Scenario.pixel_gone] "A" eq_refl).
    intros h Hin _. by apply list_elem_of_singleton in Hin as ->.
  - destruct (discovery_update_reset
                (exec (handle (EvHostsUpdate [Scenario.pixel_gone])) Scenario.browsing)
                [Scenario.pixel] "A" eq_refl)
      as (_ & _ & _ & _ & Hback).
    destruct Hback as (h' & Hsel & _ & Hid & _).
    + discriminate.
    + exists Scenario.pixel. split; [apply list_elem_of_here|]. split; [reflexivity|discriminate].
    + by exists h'.
Defined.

(** ** Mounting *)

(** A single available host is selected when the component mounts, and
    its targets are requested (by [selectHost] and once more by the first
    [updateTargets] of [componentDidMount]). *)
Example mount_selects_single_available_host :
  let w := exec componentDidMount (initial [Scenario.pixel]) in
  selectedHostId (comp w) = Some "A"
  ∧ fetches w = [mkFetch "A" false; mkFetch "A" false].
Proof. by split. Qed.

(** With several hosts, or a host that is not available, nothing is
    selected at mount. *)
Example mount_selects_nothing_otherwise :
  selectedHostId (comp (exec componentDidMount Scenario.idle)) = None
  ∧ selectedHostId (comp (exec componentDidMount (initial [Scenario.nexus]))) = None.
Proof. by split. Qed.

(** ** [selectHost] *)

(** The four branches of [selectHost], as equations on the world. *)
Lemma selectHost_unfold (w : World) (hostId : string) :
  exec (selectHost hostId) w =
    let c := set_selectedHostId (Some hostId) (comp w) in
    let c' := set_inProgressHostIds (push (inProgressHostIds c) hostId) c in
    match selecting (comp w) hostId with
    | Some h =>
        match host_state h with
        | available =>
            mkWorld (set_searchInput "" c) (activations w)
                    (fetches w ++ [mkFetch (host_id h) false])
        | launch_required =>
            mkWorld c' (activations w
                        ++ [mkActivation (Launch hostId) c' (PullHost hostId) false])
                    (fetches w)
        | setup_required =>
            mkWorld c' (activations w
                        ++ [mkActivation (Setup hostId) c' (PullHost hostId) false])
                    (fetches w)
        | unavailable => mkWorld c (activations w) (fetches w)
        end
    | None => mkWorld c (activations w) (fetches w)
    end.
Proof.
  step_m.
  destruct (if truthy _ then _ else _) as [[i n []]|] eqn:Hs;
    cbn in *; rewrite ?Hs; reflexivity.
Qed.

Lemma selecting_id (c : Component) (hostId : string) (h : FridaHost) :
  selecting c hostId = Some h → host_id h = hostId ∧ hostId ≠ "".
Proof.
  intros Hs. apply selectedHost_Some in Hs as (Hid & Hne & _).
  cbn in Hid. injection Hid as ->. by split.
Qed.

Lemma updateTargets_selected (w : World) (h : FridaHost) :
  selectedHost (comp w) = Some h →
  exec updateTargets w =
    mkWorld (comp w) (activations w) (fetches w ++ [mkFetch (host_id h) false]).
Proof.
  intros Hs. unfold exec, updateTargets, gets, mbind, M_bind. by rewrite Hs.
Qed.

Lemma updateTargets_unselected (w : World) :
  selectedHost (comp w) = None →
  exec updateTargets w =
    mkWorld (set_fridaTargets [] (comp w)) (activations w) (fetches w).
Proof.
  intros Hs. unfold exec, updateTargets, gets, mbind, M_bind. by rewrite Hs.
Qed.

(** The autorun leaves a world alone when a host carries the selected id. *)
Lemma autorun_listed (w : World) (h : FridaHost) :
  h ∈ fridaHosts (comp w) → selectedHostId (comp w) = Some (host_id h) →
  exec autorun w = w.
Proof.
  intros Hin Hs. rewrite autorun_spec, Hs.
  assert (Hex : existsb (λ host, bool_decide (Some (host_id host) = Some (host_id h)))
                        (fridaHosts (comp w)) = true).
  { apply existsb_id_true. eauto. }
  rewrite Hex. by rewrite andb_false_r.
Qed.

Lemma exec_bind {A B} (m : M A) (f : A → M B) (w : World) :
  exec (m ≫= f) w = exec (f (m w).1) (m w).2.
Proof. unfold exec, mbind, M_bind. by destruct (m w). Qed.

Lemma handle_selectHost (w : World) (hostId : string) :
  exec (handle (EvSelectHost hostId)) w = exec autorun (exec (selectHost hostId) w).
Proof. cbn [handle]. by rewrite exec_bind. Qed.

(** C4, as stated, fails: with nothing selected and host "B" listed in
    state 'launch-required', [selectHost("B")] first assigns
    [selectedHostId = "B"]; afterwards "B" is the selected host.  Neither
    the selected id nor the selected host is what it was before the call. *)
Lemma selectHost_launch_required_selects :
  ¬ (∀ (w : World) (hostId : string) (h : FridaHost),
       h ∈ fridaHosts (comp w) → host_id h = hostId →
       host_state h = launch_required ∨ host_state h = setup_required →
       let w' := exec (selectHost hostId) w in
       selectedHostId (comp w') = selectedHostId (comp w)
       ∨ selectedHost (comp w') = selectedHost (comp w)).
Proof.
  intros Hclaim.
  assert (Hin : Scenario.nexus ∈ fridaHosts (comp Scenario.idle)).
  { apply list_elem_of_further, list_elem_of_here. }
  destruct (Hclaim Scenario.idle "B" Scenario.nexus Hin eq_refl (or_introl eq_refl))
    as [Hid|Hhost]; vm_compute in *; discriminate.
Qed.

(** C4 (amended): when [selectHost(hostId)] finds a host in state
    'launch-required' or 'setup-required', the host is marked activating and
    the Activation Service is invoked with 'launch', respectively 'setup',
    for that [hostId]; the call also sets [selectedHostId] to [hostId], so
    that host is the selected host afterwards.  The search input, the
    loaded targets and the pending target requests are not touched, and the
    autorun that follows changes nothing. *)
Theorem selectHost_activation (w : World) (hostId : string) (h : FridaHost) :
  selecting (comp w) hostId = Some h →
  host_state h = launch_required ∨ host_state h = setup_required →
  let w' := exec (selectHost hostId) w in
  host_id h = hostId
  ∧ hostActivating (comp w') hostId = true
  ∧ activations w' =
      activations w
      ++ [mkActivation (if decide (host_state h = launch_required)
                        then Launch hostId else Setup hostId)
                       (comp w') (PullHost hostId) false]
  ∧ selectedHostId (comp w') = Some hostId
  ∧ selectedHost (comp w') = Some h
  ∧ searchInput (comp w') = searchInput (comp w)
  ∧ fridaTargets (comp w') = fridaTargets (comp w)
  ∧ fetches w' = fetches w
  ∧ exec (handle (EvSelectHost hostId)) w = w'.
Proof.
  intros Hs Hst w'.
  destruct (selecting_id _ _ _ Hs) as [Hid Hne].
  assert (Hmark : hostActivating
            (set_inProgressHostIds
               (push (inProgressHostIds (set_selectedHostId (Some hostId) (comp w))) hostId)
               (set_selectedHostId (Some hostId) (comp w))) hostId = true).
  { apply includes_true. cbn. apply elem_of_push. by right. }
  assert (Hlisted : h ∈ fridaHosts (comp w)).
  { by apply selectedHost_Some in Hs as (_ & _ & Hin & _). }
  split; [done|].
  rewrite handle_selectHost. subst w'. rewrite selectHost_unfold, Hs.
  destruct Hst as [Hst|Hst]; rewrite Hst; cbn zeta;
    (repeat split; try done;
     apply (autorun_listed _ h); cbn; [done | by rewrite Hid]).
Qed.

(** [selectHost("B")] on the launch-required host "B": "B" is marked, the
    service is asked to launch it, and "B" is selected. *)
Lemma selectHost_activation_witness :
  hostActivating (comp (exec (selectHost "B") Scenario.idle)) "B" = true
  ∧ act_options <$> activations (exec (selectHost "B") Scenario.idle) = [Launch "B"]
  ∧ selectedHostId (comp (exec (selectHost "B") Scenario.idle)) = Some "B".
Proof.
  pose proof (selectHost_activation Scenario.idle "B" Scenario.nexus
                eq_refl (or_introl eq_refl)) as (_ & Hmark & Hcall & Hsel & _).
  split; [exact Hmark|]. split; [|exact Hsel].
  rewrite Hcall. reflexivity.
Defined.

(** C10: [selectHost(hostId)] resets the search input to the empty string
    when the host it finds is in state 'available'; in every other case
    (another state, or no selectable host of that id) the search input is
    left as it was.  The autorun that follows does not touch it. *)
Theorem selectHost_search_input (w : World) (hostId : string) :
  let w' := exec (selectHost hostId) w in
  (∀ h, selecting (comp w) hostId = Some h → host_state h = available →
        searchInput (comp w') = "")
  ∧ ((∀ h, selecting (comp w) hostId = Some h → host_state h ≠ available) →
     searchInput (comp w') = searchInput (comp w))
  ∧ searchInput (comp (exec (handle (EvSelectHost hostId)) w)) = searchInput (comp w').
Proof.
  intros w'. subst w'. rewrite handle_selectHost, autorun_spec, selectHost_unfold.
  split; [|split].
  - intros h Hs Hst. by rewrite Hs, Hst.
  - intros Hother. destruct (selecting (comp w) hostId) as [h|] eqn:Hs; [|done].
    specialize (Hother h eq_refl). by destruct (host_state h).
  - by destruct (truthy _ && negb _).
Qed.

(** A filter typed while browsing "A" is dropped when "A" is selected
    again, and kept when the launch-required host "B" is selected. *)
Lemma selectHost_search_input_witness :
  let typed := exec (onSearchChange "chrome") Scenario.browsing in
  searchInput (comp (exec (selectHost "A") typed)) = ""
  ∧ searchInput (comp (exec (selectHost "B") typed)) = "chrome".
Proof.
  intros typed. split.
  - exact (proj1 (selectHost_search_input typed "A") Scenario.pixel eq_refl eq_refl).
  - apply (proj1 (proj2 (selectHost_search_input typed "B"))).
    intros h Hs. vm_compute in Hs. injection Hs as <-. discriminate.
Defined.

(** ** [interceptTarget] and the settling of activations *)

Lemma interceptTarget_unfold (w : World) (targetId : string) :
  exec (interceptTarget targetId) w =
    match selectedHost (comp w) with
    | Some h =>
        let c' := set_inProgressTargetIds (push (inProgressTargetIds (comp w)) targetId)
                                          (comp w) in
        mkWorld c' (activations w
                    ++ [mkActivation (Intercept (host_id h) targetId) c'
                                     (PullTarget targetId) false])
                (fetches w)
    | None => w
    end.
Proof.
  unfold exec, interceptTarget, gets, mbind, M_bind.
  by destruct (selectedHost (comp w)).
Qed.

Lemma settleActivation_unfold (w : World) (k : nat) (o : Outcome) :
  exec (settleActivation k o) w =
    match activations w !! k with
    | Some a =>
        if act_settled a then w
        else
          let acts := <[k := settled a]> (activations w) in
          match act_finally a with
          | PullHost hostId =>
              mkWorld (set_inProgressHostIds (pull (inProgressHostIds (comp w)) hostId)
                                             (comp w)) acts (fetches w)
          | PullTarget targetId =>
              mkWorld (set_inProgressTargetIds (pull (inProgressTargetIds (comp w)) targetId)
                                               (comp w)) acts (fetches w)
          end
    | None => w
    end.
Proof.
  unfold exec, settleActivation.
  destruct (activations w !! k) as [a|]; [|done].
  destruct (act_settled a); [done|]. by destruct (act_finally a).
Qed.

(** What an event does to the list of activations: it is kept, extended by
    one call, or one entry is flagged as settled. *)
Lemma handle_activations (e : Event) (w : World) :
  let acts' := activations (exec (handle e) w) in
  acts' = activations w
  ∨ (∃ a, acts' = activations w ++ [a])
  ∨ (∃ k a, activations w !! k = Some a ∧ acts' = <[k := settled a]> (activations w)).
Proof.
  destruct e as [hostId| |targetId|value|hosts| |k o|k r]; cbn [handle].
  - rewrite exec_bind. fold (exec (selectHost hostId) w).
    rewrite autorun_spec, selectHost_unfold.
    destruct (truthy _ && negb _);
      destruct (selecting (comp w) hostId) as [[i n []]|]; cbn; eauto.
  - rewrite exec_bind, autorun_spec. destruct (truthy _ && negb _); cbn; eauto.
  - rewrite interceptTarget_unfold. destruct (selectedHost (comp w)); cbn; eauto.
  - cbn. eauto.
  - rewrite exec_bind, autorun_spec. destruct (truthy _ && negb _); cbn; eauto.
  - unfold exec, updateTargets, gets, mbind, M_bind.
    destruct (selectedHost (comp w)); cbn; eauto.
  - rewrite settleActivation_unfold.
    destruct (activations w !! k) as [a|] eqn:Hk; [|by left].
    destruct (act_settled a); [by left|].
    right; right. exists k, a. by destruct (act_finally a).
  - unfold exec, targetsResponse.
    destruct (fetches w !! k) as [f|]; [|by left].
    destruct (fetch_done f); [by left|]. destruct r; cbn; eauto.
Qed.

(** A recorded activation keeps its place, its argument and its callback. *)
Lemma activation_persists (es : list Event) (w : World) (k : nat) (a : Activation) :
  activations w !! k = Some a →
  ∃ a', activations (run es w) !! k = Some a'
        ∧ act_options a' = act_options a ∧ act_finally a' = act_finally a.
Proof.
  revert w a. induction es as [|e es IH]; intros w a Hk; cbn [run]; [eauto|].
  destruct (handle_activations e w) as [Heq|[[b Heq]|(k' & b & Hk' & Heq)]].
  - apply IH. by rewrite Heq.
  - apply IH. rewrite Heq. rewrite lookup_app_l; [done|]. by eapply lookup_lt_Some.
  - destruct (decide (k = k')) as [->|Hne].
    + assert (b = a) as -> by congruence.
      destruct (IH (exec (handle e) w) (settled a)) as (a' & Ha' & Ho & Hf).
      { rewrite Heq. apply list_lookup_insert_eq. by eapply lookup_lt_Some. }
      exists a'. by rewrite Ho, Hf.
    + apply IH. rewrite Heq. by rewrite list_lookup_insert_ne.
Qed.

(** C3: an activation adds its identifier to the in-progress array before
    the Activation Service is invoked (the component the service is invoked
    on already holds it), and the callback registered on the returned
    promise removes it when the promise settles, resolved or rejected.
    [interceptTarget] with a selected host invokes the service with
    [{action: 'intercept', hostId, targetId}], [hostId] being the selected
    id; without a selected host it changes nothing and calls nothing.  A
    recorded call keeps its callback through all later events. *)
Theorem activation_mark_and_cleanup (w : World) :
  (∀ hostId h,
      selecting (comp w) hostId = Some h →
      host_state h = launch_required ∨ host_state h = setup_required →
      ∃ a, activations (exec (selectHost hostId) w) = activations w ++ [a]
           ∧ act_options a = (if decide (host_state h = launch_required)
                              then Launch hostId else Setup hostId)
           ∧ hostId ∈ inProgressHostIds (act_seen a)
           ∧ act_finally a = PullHost hostId ∧ act_settled a = false)
  ∧ (∀ targetId h,
      selectedHost (comp w) = Some h →
      ∃ a, activations (exec (interceptTarget targetId) w) = activations w ++ [a]
           ∧ act_options a = Intercept (host_id h) targetId
           ∧ selectedHostId (comp w) = Some (host_id h)
           ∧ targetId ∈ inProgressTargetIds (act_seen a)
           ∧ act_finally a = PullTarget targetId ∧ act_settled a = false)
  ∧ (∀ targetId,
      selectedHost (comp w) = None → exec (interceptTarget targetId) w = w)
  ∧ (∀ k a o,
      activations w !! k = Some a → act_settled a = false →
      let w' := exec (handle (EvActivationSettled k o)) w in
      match act_finally a with
      | PullHost hostId => hostId ∉ inProgressHostIds (comp w')
      | PullTarget targetId => targetId ∉ inProgressTargetIds (comp w')
      end)
  ∧ (∀ es k a,
      activations w !! k = Some a →
      ∃ a', activations (run es w) !! k = Some a'
            ∧ act_options a' = act_options a ∧ act_finally a' = act_finally a).
Proof.
  repeat apply conj.
  - intros hostId h Hs Hst. rewrite selectHost_unfold, Hs.
    destruct Hst as [Hst|Hst]; rewrite Hst; cbn zeta;
      eexists; (split; [reflexivity|]); cbn;
      (repeat split; try done); apply elem_of_push; by right.
  - intros targetId h Hs. rewrite interceptTarget_unfold, Hs. cbn zeta.
    eexists; split; [reflexivity|]. cbn. repeat split; try done.
    + by apply selectedHost_Some in Hs as (Hid & _).
    + apply elem_of_push. by right.
  - intros targetId Hs. by rewrite interceptTarget_unfold, Hs.
  - intros k a o Hk Hpending. cbn [handle].
    rewrite settleActivation_unfold, Hk, Hpending.
    destruct (act_finally a); cbn; apply pull_removes.
  - intros es k a Hk. by apply activation_persists.
Qed.

(** While "A" is browsed its target is intercepted: the service is called
    for host "A" and that target with the target already marked; the
    rejected promise clears the mark. *)
Lemma activation_mark_and_cleanup_witness :
  let w1 := exec (interceptTarget "com.android.chrome") Scenario.browsing in
  (∃ a, activations w1 = [a]
        ∧ act_options a = Intercept "A" "com.android.chrome"
        ∧ "com.android.chrome" ∈ inProgressTargetIds (act_seen a))
  ∧ "com.android.chrome"
      ∉ inProgressTargetIds (comp (exec (handle (EvActivationSettled 0 Rejected)) w1)).
Proof.
  intros w1. split.
  - destruct (proj1 (proj2 (activation_mark_and_cleanup Scenario.browsing))
                "com.android.chrome" Scenario.pixel eq_refl)
      as (a & Hacts & Hopt & _ & Hin & _).
    exists a. by repeat split.
  - exact (proj1 (proj2 (proj2 (proj2 (activation_mark_and_cleanup w1))))
             0 _ Rejected eq_refl eq_refl).
Defined.

(** ** Concurrent activations *)

Lemma occurrences_pull_same (l : list string) (v : string) :
  occurrences (pull l v) v = 0.
Proof.
  unfold occurrences, pull. induction l as [|x l IH]; [done|].
  rewrite filter_cons. destruct (decide (x ≠ v)) as [Hne|Heq]; [|done].
  rewrite filter_cons. by destruct (decide (x = v)).
Qed.

Lemma occurrences_pull_other (l : list string) (v x : string) :
  x ≠ v → occurrences (pull l v) x = occurrences l x.
Proof.
  intros Hne. unfold occurrences, pull. induction l as [|y l IH]; [done|].
  rewrite (filter_cons (λ z, z ≠ v)), (filter_cons (λ z, z = x) y l).
  destruct (decide (y ≠ v)) as [Hy|Hy].
  - rewrite filter_cons. destruct (decide (y = x)); cbn; by rewrite IH.
  - destruct (decide (y = x)) as [->|]; [|done]. by destruct Hy.
Qed.

(** The selected host only depends on the host list and the selected id. *)
Lemma selectedHost_set_inProgressTargetIds (v : list string) (c : Component) :
  selectedHost (set_inProgressTargetIds v c) = selectedHost c.
Proof. reflexivity. Qed.

(** C2, as stated, fails: the target "com.android.chrome" is intercepted
    twice while "A" is browsed, so the id is pushed twice; when the first
    of the two promises settles, [_.pull] removes both entries although the
    second activation is still pending. *)
Lemma settle_removes_every_occurrence :
  ¬ (∀ (w : World) (k : nat) (a : Activation) (o : Outcome) (targetId : string),
       activations w !! k = Some a → act_settled a = false →
       act_finally a = PullTarget targetId →
       let w' := exec (handle (EvActivationSettled k o)) w in
       occurrences (inProgressTargetIds (comp w')) targetId + 1
       = occurrences (inProgressTargetIds (comp w)) targetId).
Proof.
  intros Hclaim.
  specialize (Hclaim
    (run [EvInterceptTarget "com.android.chrome"; EvInterceptTarget "com.android.chrome"]
         Scenario.browsing)
    0 _ Resolved "com.android.chrome" eq_refl eq_refl eq_refl).
  vm_compute in Hclaim. discriminate Hclaim.
Qed.

(** C2 (amended): when a pending activation settles, every entry of its
    in-progress array that equals its identifier is removed, and all other
    entries stay, in the same order and number; the other array and the rest
    of the component are untouched.  For two targets with different ids
    intercepted one after the other, both are shown as activating, and the
    settling of either promise clears that target's marker and leaves the
    other one set, whichever settles first. *)
Theorem settle_clears_identifier :
  (∀ (w : World) (k : nat) (a : Activation) (o : Outcome),
     activations w !! k = Some a → act_settled a = false →
     let c := comp w in
     let c' := comp (exec (handle (EvActivationSettled k o)) w) in
     match act_finally a with
     | PullTarget targetId =>
         inProgressTargetIds c' = filter (λ x, x ≠ targetId) (inProgressTargetIds c)
         ∧ occurrences (inProgressTargetIds c') targetId = 0
         ∧ (∀ x, x ≠ targetId →
                 occurrences (inProgressTargetIds c') x
                 = occurrences (inProgressTargetIds c) x)
         ∧ inProgressHostIds c' = inProgressHostIds c
     | PullHost hostId =>
         inProgressHostIds c' = filter (λ x, x ≠ hostId) (inProgressHostIds c)
         ∧ occurrences (inProgressHostIds c') hostId = 0
         ∧ (∀ x, x ≠ hostId →
                 occurrences (inProgressHostIds c') x
                 = occurrences (inProgressHostIds c) x)
         ∧ inProgressTargetIds c' = inProgressTargetIds c
     end
     ∧ selectedHostId c' = selectedHostId c ∧ fridaTargets c' = fridaTargets c
     ∧ searchInput c' = searchInput c ∧ fridaHosts c' = fridaHosts c)
  ∧ (∀ (w : World) (h : FridaHost) (t1 t2 : string) (o1 o2 : Outcome),
     selectedHost (comp w) = Some h → t1 ≠ t2 →
     let n := length (activations w) in
     let both := run [EvInterceptTarget t1; EvInterceptTarget t2] w in
     let first_done := exec (handle (EvActivationSettled n o1)) both in
     let second_done := exec (handle (EvActivationSettled (S n) o2)) both in
     targetActivating (comp both) t1 = true
     ∧ targetActivating (comp both) t2 = true
     ∧ targetActivating (comp first_done) t1 = false
     ∧ targetActivating (comp first_done) t2 = true
     ∧ targetActivating (comp second_done) t2 = false
     ∧ targetActivating (comp second_done) t1 = true
     ∧ targetActivating
         (comp (exec (handle (EvActivationSettled (S n) o2)) first_done)) t2 = false
     ∧ targetActivating
         (comp (exec (handle (EvActivationSettled n o1)) second_done)) t1 = false).
Proof.
  split.
  - intros w k a o Hk Hpending c c'. subst c c'. cbn [handle].
    rewrite settleActivation_unfold, Hk, Hpending.
    destruct (act_finally a) as [hostId|targetId]; cbn;
      (repeat split; try done);
      [apply occurrences_pull_same | intros x Hx; by apply occurrences_pull_other
      | apply occurrences_pull_same | intros x Hx; by apply occurrences_pull_other].
  - intros w h t1 t2 o1 o2 Hs Hne n both first_done second_done.
    assert (Hboth : both =
      let c1 := set_inProgressTargetIds (push (inProgressTargetIds (comp w)) t1) (comp w) in
      let c2 := set_inProgressTargetIds (push (inProgressTargetIds c1) t2) c1 in
      mkWorld c2
        ((activations w ++ [mkActivation (Intercept (host_id h) t1) c1 (PullTarget t1) false])
         ++ [mkActivation (Intercept (host_id h) t2) c2 (PullTarget t2) false])
        (fetches w)).
    { subst both. cbn [run handle]. rewrite (interceptTarget_unfold w), Hs. cbn zeta.
      rewrite interceptTarget_unfold. cbn [comp].
      by rewrite selectedHost_set_inProgressTargetIds, Hs. }
    cbn zeta in Hboth. clearbody both.
    assert (Hk1 : activations both !! n
                  = Some (mkActivation (Intercept (host_id h) t1)
                            (set_inProgressTargetIds (push (inProgressTargetIds (comp w)) t1)
                                                     (comp w))
                            (PullTarget t1) false)).
    { rewrite Hboth. cbn [activations]. rewrite <- app_assoc. by apply list_lookup_middle. }
    assert (Hk2 : ∃ a2, activations both !! S n = Some a2
                        ∧ act_finally a2 = PullTarget t2 ∧ act_settled a2 = false).
    { eexists. rewrite Hboth. cbn [activations].
      split; [apply list_lookup_middle; rewrite length_app; cbn; lia | done]. }
    destruct Hk2 as (a2 & Hk2 & Hf2 & Hp2).
    assert (Hids : inProgressTargetIds (comp both)
                   = push (push (inProgressTargetIds (comp w)) t1) t2)
      by (by rewrite Hboth).
    assert (Hfirst : inProgressTargetIds (comp first_done)
                     = pull (inProgressTargetIds (comp both)) t1
                     ∧ activations first_done !! S n = Some a2).
    { subst first_done. cbn [handle]. rewrite settleActivation_unfold, Hk1. cbn.
      split; [done|]. rewrite list_lookup_insert_ne by lia. done. }
    assert (Hsecond : inProgressTargetIds (comp second_done)
                      = pull (inProgressTargetIds (comp both)) t2
                      ∧ activations second_done !! n = activations both !! n).
    { subst second_done. cbn [handle]. rewrite settleActivation_unfold, Hk2, Hp2, Hf2. cbn.
      split; [done|]. rewrite list_lookup_insert_ne by lia. done. }
    destruct Hfirst as [Hfirst Hk2'], Hsecond as [Hsecond Hk1'].
    clearbody first_done second_done.
    unfold targetActivating.
    rewrite !includes_true, !includes_false.
    cbn [handle]. rewrite !settleActivation_unfold, Hk2', Hp2, Hf2, Hk1', Hk1.
    cbn. rewrite Hfirst, Hsecond, Hids.
    rewrite !elem_of_pull, !elem_of_push.
    repeat split; try tauto; try (intros [? ?]; done); eauto.
Qed.

(** Two different apps of host "A" are intercepted; the first promise is
    rejected: its marker is gone, the other one is still shown. *)
Lemma settle_clears_identifier_witness :
  let both := run [EvInterceptTarget "com.android.chrome"; EvInterceptTarget "org.mozilla.firefox"]
                  Scenario.browsing in
  let first_done := exec (handle (EvActivationSettled 0 Rejected)) both in
  targetActivating (comp both) "com.android.chrome" = true
  ∧ targetActivating (comp both) "org.mozilla.firefox" = true
  ∧ targetActivating (comp first_done) "com.android.chrome" = false
  ∧ targetActivating (comp first_done) "org.mozilla.firefox" = true.
Proof.
  intros both first_done.
  assert (Hne : "com.android.chrome" ≠ "org.mozilla.firefox") by discriminate.
  destruct (proj2 settle_clears_identifier Scenario.browsing Scenario.pixel
              "com.android.chrome" "org.mozilla.firefox" Rejected Resolved eq_refl Hne)
    as (H1 & H2 & H3 & H4 & _).
  by repeat split.
Defined.

(** ** Target lists *)

Lemma targetsResponse_unfold (w : World) (k : nat) (r : option (option (list FridaTarget))) :
  exec (targetsResponse k r) w =
    match fetches w !! k with
    | Some f =>
        if fetch_done f then w
        else
          let fs := <[k := mkFetch (fetch_hostId f) true]> (fetches w) in
          match r with
          | Some result =>
              mkWorld (set_fridaTargets (default [] result) (comp w)) (activations w) fs
          | None => mkWorld (comp w) (activations w) fs
          end
    | None => w
    end.
Proof.
  unfold exec, targetsResponse.
  destruct (fetches w !! k) as [f|]; [|done].
  destruct (fetch_done f); [done|]. by destruct r.
Qed.

(** C5, as stated, fails: "A" is selected, which requests its targets, and
    deselected before the answer arrives.  The late answer is assigned to
    [fridaTargets] although no host is selected: it is neither ignored nor
    replaced by the empty list. *)
Lemma late_response_is_applied :
  ¬ (∀ (w : World) (k : nat) (f : Fetch) (result : option (list FridaTarget)),
       fetches w !! k = Some f → fetch_done f = false →
       host_id <$> selectedHost (comp w) ≠ Some (fetch_hostId f) →
       let w' := exec (handle (EvTargetsResponse k (Some result))) w in
       fridaTargets (comp w') = fridaTargets (comp w) ∨ fridaTargets (comp w') = []).
Proof.
  intros Hclaim.
  destruct (Hclaim (run [EvSelectHost "A"; EvDeselectHost] Scenario.idle)
                   0 (mkFetch "A" false) (Some [Scenario.browser]) eq_refl eq_refl)
    as [Hkept|Hcleared].
  - vm_compute. discriminate.
  - vm_compute in Hkept. discriminate Hkept.
  - vm_compute in Hcleared. discriminate Hcleared.
Qed.

(** C5 (amended): the answer to a pending target request is applied as it
    arrives, without a look at the selection: [fridaTargets] becomes the
    answer's targets, or the empty list for an undefined answer, whichever
    host is selected by then; the selection itself is not changed.  The
    selection is consulted only when [updateTargets] starts: without a
    selected host it empties [fridaTargets] and requests nothing, with one
    it requests the targets of that host and leaves [fridaTargets] alone. *)
Theorem targets_response_applied (w : World) :
  (∀ k f result,
      fetches w !! k = Some f → fetch_done f = false →
      let w' := exec (handle (EvTargetsResponse k (Some result))) w in
      fridaTargets (comp w') = default [] result
      ∧ selectedHostId (comp w') = selectedHostId (comp w)
      ∧ fridaHosts (comp w') = fridaHosts (comp w))
  ∧ (selectedHost (comp w) = None →
      exec (handle EvTick) w
      = mkWorld (set_fridaTargets [] (comp w)) (activations w) (fetches w))
  ∧ (∀ h, selectedHost (comp w) = Some h →
      exec (handle EvTick) w
      = mkWorld (comp w) (activations w) (fetches w ++ [mkFetch (host_id h) false])).
Proof.
  split; [|split].
  - intros k f result Hk Hpending. cbn [handle].
    by rewrite targetsResponse_unfold, Hk, Hpending.
  - apply updateTargets_unselected.
  - intros h. apply updateTargets_selected.
Qed.

(** The targets of "A" arrive after "A" was deselected, and are stored. *)
Lemma targets_response_applied_witness :
  let w := run [EvSelectHost "A"; EvDeselectHost] Scenario.idle in
  selectedHostId (comp w) = None
  ∧ fridaTargets (comp (exec (handle (EvTargetsResponse 0 (Some (Some [Scenario.browser])))) w))
    = [Scenario.browser].
Proof.
  intros w. split; [reflexivity|].
  exact (proj1 (proj1 (targets_response_applied w) 0 (mkFetch "A" false)
                      (Some [Scenario.browser]) eq_refl eq_refl)).
Defined.

(** C6, as stated, fails: "A" is selected with its targets loaded;
    [deselectHost] only clears the selected id, the loaded targets are
    still in [fridaTargets] when it returns. *)
Lemma deselectHost_keeps_targets :
  ¬ (∀ w : World,
       is_Some (selectedHost (comp w)) →
       fridaTargets (comp (exec (handle EvDeselectHost) w)) = []).
Proof.
  intros Hclaim.
  assert (Hsel : is_Some (selectedHost (comp Scenario.browsing))) by (by eexists).
  specialize (Hclaim Scenario.browsing Hsel).
  vm_compute in Hclaim. discriminate Hclaim.
Qed.

(** C6 (amended): [deselectHost] can be run in every state; afterwards no
    host is selected ([selectedHostId] is undefined).  It does not touch
    [fridaTargets], the in-progress arrays or the pending calls; the loaded
    targets are discarded by the next run of [updateTargets], which finds
    no selected host, empties [fridaTargets] and requests nothing. *)
Theorem deselectHost_then_tick (w : World) :
  let w' := exec (handle EvDeselectHost) w in
  let w'' := exec (handle EvTick) w' in
  w' = mkWorld (set_selectedHostId None (comp w)) (activations w) (fetches w)
  ∧ selectedHostId (comp w') = None
  ∧ selectedHost (comp w') = None
  ∧ fridaTargets (comp w') = fridaTargets (comp w)
  ∧ fridaTargets (comp w'') = []
  ∧ selectedHostId (comp w'') = None
  ∧ fetches w'' = fetches w.
Proof.
  intros w' w''.
  assert (Hw' : w' = mkWorld (set_selectedHostId None (comp w)) (activations w) (fetches w)).
  { subst w'. cbn [handle]. rewrite exec_bind, autorun_spec. reflexivity. }
  assert (Hw'' : w'' = mkWorld (set_fridaTargets [] (comp w')) (activations w') (fetches w')).
  { subst w''. cbn [handle]. apply updateTargets_unselected. by rewrite Hw'. }
  rewrite Hw''. clearbody w''. rewrite Hw'. by repeat split.
Qed.

End FridaProps.

(* ===================================================================== *)
(** * Properties of ExchangeRequestBreakpointCard                          *)
(* ===================================================================== *)

Module BreakpointProps.
Import BreakpointCard.

(** ** [Object.assign] *)

(** [Object.assign({}, result, { field: value })] is [result] with [field]
    set to [value]. *)
Lemma assign_field (r : Result) (field : string) (v : Value) :
  assign (assign ∅ r) {[field := v]} = <[field := v]> r.
Proof.
  unfold assign. rewrite (right_id ∅ (∪) r). symmetry. apply insert_union_singleton_l.
Qed.

Lemma on_edit_calls (r : Result) (e : Edit) (r' : Result) :
  r' ∈ on_edit r e → r' = <[edit_field e := edit_value e]> r.
Proof.
  destruct e as [method|url|headers]; cbn;
    unfold onMethodChanged, onUrlChanged, onHeadersChanged;
    rewrite assign_field.
  - case_bool_decide; [by intros ?%elem_of_nil | by intros ?%list_elem_of_singleton].
  - by intros ?%list_elem_of_singleton.
  - by intros ?%list_elem_of_singleton.
Qed.

(** C7: an edit of the url or of the headers, and an edit of the method
    to a value other than the current one, passes exactly one snapshot to
    [onChange]; every snapshot that an edit passes carries the new value in
    the edited field and agrees with the previous in-progress result on
    every other field. *)
Theorem edit_preserves_other_fields (r : Result) (e : Edit) :
  (match e with
   | MethodChange method => r !! "method" ≠ Some (VString method)
   | _ => True
   end →
   ∃ r', on_edit r e = [r'])
  ∧ ∀ r', r' ∈ on_edit r e →
          r' !! edit_field e = Some (edit_value e)
          ∧ ∀ field, field ≠ edit_field e → r' !! field = r !! field.
Proof.
  split.
  - destruct e as [method|url|headers]; cbn; intros Hchange; [|by eexists..].
    unfold onMethodChanged. rewrite bool_decide_eq_false_2 by done. by eexists.
  - intros r' ->%on_edit_calls. split.
    + apply lookup_insert_eq.
    + intros field Hne. by apply lookup_insert_ne.
Qed.

(** The url of the paused request is edited: one snapshot is handed to
    [onChange], with the new url and the old method. *)
Lemma edit_preserves_other_fields_witness :
  ∃ r', on_edit Scenario.paused (UrlChange "https://example.org/") = [r']
        ∧ r' !! "url" = Some (VString "https://example.org/")
        ∧ r' !! "method" = Some (VString "GET").
Proof.
  destruct (edit_preserves_other_fields Scenario.paused (UrlChange "https://example.org/"))
    as [Hcall Hframe].
  destruct (Hcall I) as [r' Hr']. exists r'. split; [exact Hr'|].
  destruct (Hframe r') as [Hnew Hold]; [rewrite Hr'; apply list_elem_of_here|].
  split; [exact Hnew|].
  rewrite (Hold "method"); [reflexivity | discriminate].
Defined.

(** C9: choosing the method the in-progress result already has makes no
    call of [onChange]; choosing another one makes exactly one call, with
    a snapshot whose method is the new one and whose other fields, url and
    headers among them, are those of the in-progress result. *)
Theorem method_change (r : Result) (method : string) :
  (r !! "method" = Some (VString method) → onMethodChanged r method = [])
  ∧ (r !! "method" ≠ Some (VString method) →
     ∃ r', onMethodChanged r method = [r']
           ∧ r' !! "method" = Some (VString method)
           ∧ r' !! "url" = r !! "url"
           ∧ r' !! "headers" = r !! "headers"
           ∧ ∀ field, field ≠ "method" → r' !! field = r !! field).
Proof.
  unfold onMethodChanged. rewrite assign_field. split; intros Hm.
  - by rewrite bool_decide_eq_true_2.
  - rewrite bool_decide_eq_false_2 by done. eexists. split; [reflexivity|].
    split; [apply lookup_insert_eq|].
    split; [by apply lookup_insert_ne|]. split; [by apply lookup_insert_ne|].
    intros field Hne. by apply lookup_insert_ne.
Qed.

(** GET is chosen again for the paused GET request: no call.  POST is
    chosen: one call, with the url kept. *)
Lemma method_change_witness :
  onMethodChanged Scenario.paused "GET" = []
  ∧ ∃ r', onMethodChanged Scenario.paused "POST" = [r']
          ∧ r' !! "method" = Some (VString "POST")
          ∧ r' !! "url" = Some (VString "https://example.com/").
Proof.
  split.
  - exact (proj1 (method_change Scenario.paused "GET") eq_refl).
  - destruct (proj2 (method_change Scenario.paused "POST")) as (r' & Hcall & Hm & Hu & _).
    + discriminate.
    + exists r'. split; [exact Hcall|]. split; [exact Hm|]. rewrite Hu. reflexivity.
Defined.

(** ** Header conversions *)

(** C8: converting keyed headers to the ordered pair list and back gives
    the same headers: the same entries in the same order, a repeated name
    as often and where it was.  The pair list has the names and the values
    of the entries in their order, and the pairs come back unchanged from
    the opposite round trip.  So when [EditableHeaders] reports the pairs
    it was rendered with, the snapshot passed to [onChange] is the
    in-progress result itself. *)
Theorem headers_round_trip (headers : Headers) :
  headersArrayToHeaders (headersToHeadersArray headers) = headers
  ∧ map fst (headersToHeadersArray headers) = map header_name headers
  ∧ map snd (headersToHeadersArray headers) = map header_value headers
  ∧ (∀ pairs : HeadersArray, headersToHeadersArray (headersArrayToHeaders pairs) = pairs)
  ∧ ∀ r : Result,
      r !! "headers" = Some (VHeaders headers) →
      rendered_headers r = Some (headersToHeadersArray headers)
      ∧ onHeadersChanged r (headersToHeadersArray headers) = [r].
Proof.
  assert (Hrt : headersArrayToHeaders (headersToHeadersArray headers) = headers).
  { unfold headersArrayToHeaders, headersToHeadersArray. rewrite map_map.
    rewrite <- (map_id headers) at 2. apply map_ext. by intros []. }
  split_and!.
  - done.
  - unfold headersToHeadersArray. rewrite map_map. by apply map_ext.
  - unfold headersToHeadersArray. rewrite map_map. by apply map_ext.
  - intros pairs. unfold headersArrayToHeaders, headersToHeadersArray. rewrite map_map.
    rewrite <- (map_id pairs) at 2. apply map_ext. by intros [].
  - intros r Hr. split.
    + unfold rendered_headers. by rewrite Hr.
    + unfold onHeadersChanged. rewrite assign_field, Hrt. by rewrite insert_id.
Qed.

(** The headers of the paused request, with "cookie" and "accept" repeated
    and interleaved, survive the round trip, and reporting the rendered
    pairs passes the paused request itself to [onChange]. *)
Lemma headers_round_trip_witness :
  headersToHeadersArray Scenario.paused_headers
  = [("host", "example.com"); ("cookie", "a=1"); ("accept", "text/html");
     ("cookie", "b=2"); ("accept", "*/*")]
  ∧ headersArrayToHeaders (headersToHeadersArray Scenario.paused_headers)
    = Scenario.paused_headers
  ∧ onHeadersChanged Scenario.paused (headersToHeadersArray Scenario.paused_headers)
    = [Scenario.paused].
Proof.
  destruct (headers_round_trip Scenario.paused_headers) as (Hrt & _ & _ & _ & Huse).
  split; [reflexivity|]. split; [exact Hrt|].
  exact (proj2 (Huse Scenario.paused eq_refl)).
Defined.

End BreakpointProps.

(* ===================================================================== *)
(** * Further properties of AndroidFridaConfig                             *)
(* ===================================================================== *)

Module FridaExtra.
Import Frida FridaProps.

(** ** Frames of the building blocks *)

Lemma autorun_frame (w : World) :
  let w' := exec autorun w in
  activations w' = activations w ∧ fetches w' = fetches w
  ∧ inProgressHostIds (comp w') = inProgressHostIds (comp w)
  ∧ inProgressTargetIds (comp w') = inProgressTargetIds (comp w)
  ∧ fridaTargets (comp w') = fridaTargets (comp w)
  ∧ searchInput (comp w') = searchInput (comp w)
  ∧ fridaHosts (comp w') = fridaHosts (comp w).
Proof. cbn zeta. rewrite autorun_spec. by destruct (truthy _ && negb _). Qed.

(** After the autorun a non-empty selected id is listed, whatever was
    selected before. *)
Lemma autorun_selected_is_listed (w : World) : selected_is_listed (exec autorun w).
Proof.
  rewrite autorun_spec. intros sid.
  destruct (truthy _ && negb _) eqn:Hc; cbn; [done|].
  intros Hs Hne. rewrite Hs in Hc.
  apply andb_false_iff in Hc as [Ht|Hex].
  - cbn in Ht. apply bool_decide_eq_false in Ht. tauto.
  - apply negb_false_iff in Hex. by apply existsb_id_true in Hex.
Qed.

Lemma selected_is_listed_frame (w w' : World) :
  selectedHostId (comp w') = selectedHostId (comp w) →
  fridaHosts (comp w') = fridaHosts (comp w) →
  selected_is_listed w → selected_is_listed w'.
Proof. unfold selected_is_listed. by intros -> ->. Qed.

Lemma handle_selected_is_listed (e : Event) (w : World) :
  selected_is_listed w → selected_is_listed (exec (handle e) w).
Proof.
  intros Hw.
  destruct e as [hostId| |targetId|value|hosts| |k o|k r]; cbn [handle];
    try (rewrite exec_bind; apply autorun_selected_is_listed);
    apply (selected_is_listed_frame w); try done.
  - rewrite interceptTarget_unfold. by destruct (selectedHost (comp w)).
  - rewrite interceptTarget_unfold. by destruct (selectedHost (comp w)).
  - destruct (selectedHost (comp w)) as [h|] eqn:Hs.
    + by rewrite (updateTargets_selected _ h).
    + by rewrite updateTargets_unselected.
  - destruct (selectedHost (comp w)) as [h|] eqn:Hs.
    + by rewrite (updateTargets_selected _ h).
    + by rewrite updateTargets_unselected.
  - rewrite settleActivation_unfold. destruct (activations w !! k) as [a|]; [|done].
    destruct (act_settled a); [done|]. by destruct (act_finally a).
  - rewrite settleActivation_unfold. destruct (activations w !! k) as [a|]; [|done].
    destruct (act_settled a); [done|]. by destruct (act_finally a).
  - rewrite targetsResponse_unfold. destruct (fetches w !! k) as [f|]; [|done].
    destruct (fetch_done f); [done|]. by destruct r.
  - rewrite targetsResponse_unfold. destruct (fetches w !! k) as [f|]; [|done].
    destruct (fetch_done f); [done|]. by destruct r.
Qed.

(** ** The calls of the Activation Service *)

Lemma call_valid_settled (a : Activation) : call_valid a → call_valid (settled a).
Proof. done. Qed.

Lemma selectHost_calls_valid (hostId : string) (w : World) :
  Forall call_valid (activations w) →
  Forall call_valid (activations (exec (selectHost hostId) w)).
Proof.
  intros Hw. rewrite selectHost_unfold.
  destruct (selecting (comp w) hostId) as [h|] eqn:Hs; [|done].
  destruct (selecting_id _ _ _ Hs) as [Hid _].
  destruct (host_state h) eqn:Hst; cbn; try done;
    (apply Forall_app; split; [done|]; apply Forall_singleton;
     exists h; split; [exact Hs|]; cbn;
     repeat split; try done; apply elem_of_push; by right).
Qed.

Lemma interceptTarget_calls_valid (targetId : string) (w : World) :
  Forall call_valid (activations w) →
  Forall call_valid (activations (exec (interceptTarget targetId) w)).
Proof.
  intros Hw. rewrite interceptTarget_unfold.
  destruct (selectedHost (comp w)) as [h|] eqn:Hs; [|done]. cbn.
  apply Forall_app; split; [done|]. apply Forall_singleton.
  exists h. split; [exact Hs|]. cbn. repeat split. apply elem_of_push. by right.
Qed.

Lemma handle_calls_valid (e : Event) (w : World) :
  Forall call_valid (activations w) →
  Forall call_valid (activations (exec (handle e) w)).
Proof.
  intros Hw.
  destruct e as [hostId| |targetId|value|hosts| |k o|k r]; cbn [handle].
  - rewrite exec_bind. fold (exec (selectHost hostId) w).
    rewrite (proj1 (autorun_frame _)). by apply selectHost_calls_valid.
  - rewrite exec_bind. by rewrite (proj1 (autorun_frame _)).
  - by apply interceptTarget_calls_valid.
  - done.
  - rewrite exec_bind. by rewrite (proj1 (autorun_frame _)).
  - destruct (selectedHost (comp w)) as [h|] eqn:Hs.
    + by rewrite (updateTargets_selected _ h).
    + by rewrite updateTargets_unselected.
  - rewrite settleActivation_unfold.
    destruct (activations w !! k) as [a|] eqn:Hk; [|done].
    destruct (act_settled a); [done|].
    assert (Hacts : Forall call_valid (<[k := settled a]> (activations w))).
    { apply Forall_insert; [done|]. apply call_valid_settled.
      by apply (Forall_lookup_1 _ _ _ _ Hw Hk). }
    by destruct (act_finally a).
  - rewrite targetsResponse_unfold. destruct (fetches w !! k) as [f|]; [|done].
    destruct (fetch_done f); [done|]. by destruct r.
Qed.

(** ** Identifiers in progress *)

Lemma pending_more (w w' : World) (more : list Activation) (fin : Finally) :
  activations w' = activations w ++ more → pending w fin → pending w' fin.
Proof.
  intros Hacts (k & a & Hk & Hp & Hf). exists k, a. split; [|done].
  rewrite Hacts. rewrite lookup_app_l; [done|]. by eapply lookup_lt_Some.
Qed.

Lemma pending_new (w w' : World) (a : Activation) (fin : Finally) :
  activations w' = activations w ++ [a] → act_settled a = false →
  act_finally a = fin → pending w' fin.
Proof.
  intros Hacts Hp Hf. exists (length (activations w)), a. split; [|done].
  rewrite Hacts. by apply list_lookup_middle.
Qed.

Lemma markers_pending_frame (w w' : World) :
  activations w' = activations w →
  inProgressHostIds (comp w') = inProgressHostIds (comp w) →
  inProgressTargetIds (comp w') = inProgressTargetIds (comp w) →
  markers_pending w → markers_pending w'.
Proof.
  intros Hacts Hh Ht [Hhosts Htargets]. unfold markers_pending, pending.
  rewrite Hacts, Hh, Ht. by split.
Qed.

Lemma selectHost_markers_pending (hostId : string) (w : World) :
  markers_pending w → markers_pending (exec (selectHost hostId) w).
Proof.
  intros [Hhosts Htargets]. rewrite selectHost_unfold.
  destruct (selecting (comp w) hostId) as [h|] eqn:Hs; [|done].
  destruct (host_state h); try done; cbn zeta.
  - split; cbn [comp inProgressHostIds inProgressTargetIds set_inProgressHostIds
                set_selectedHostId].
    + intros id [Hold| ->]%elem_of_push.
      * eapply pending_more; [reflexivity | by apply Hhosts].
      * by eapply (pending_new w); [reflexivity | |].
    + intros id Hin. eapply pending_more; [reflexivity | by apply Htargets].
  - split; cbn [comp inProgressHostIds inProgressTargetIds set_inProgressHostIds
                set_selectedHostId].
    + intros id [Hold| ->]%elem_of_push.
      * eapply pending_more; [reflexivity | by apply Hhosts].
      * by eapply (pending_new w); [reflexivity | |].
    + intros id Hin. eapply pending_more; [reflexivity | by apply Htargets].
Qed.

Lemma interceptTarget_markers_pending (targetId : string) (w : World) :
  markers_pending w → markers_pending (exec (interceptTarget targetId) w).
Proof.
  intros [Hhosts Htargets]. rewrite interceptTarget_unfold.
  destruct (selectedHost (comp w)) as [h|]; [|done]. cbn zeta.
  split; cbn [comp inProgressHostIds inProgressTargetIds set_inProgressTargetIds].
  - intros id Hin. eapply pending_more; [reflexivity | by apply Hhosts].
  - intros id [Hold| ->]%elem_of_push.
    + eapply pending_more; [reflexivity | by apply Htargets].
    + by eapply (pending_new w); [reflexivity | |].
Qed.

(** A promise other than the [k]-th stays as it is when the [k]-th settles. *)
Lemma pending_other (w w' : World) (k : nat) (a : Activation) (fin : Finally) :
  activations w !! k = Some a → act_finally a ≠ fin →
  activations w' = <[k := settled a]> (activations w) →
  pending w fin → pending w' fin.
Proof.
  intros Hk Hne Hacts (k' & a' & Hk' & Hp & Hf). exists k', a'. split; [|done].
  rewrite Hacts. rewrite list_lookup_insert_ne; [done|]. intros ->. congruence.
Qed.

Lemma settleActivation_markers_pending (k : nat) (o : Outcome) (w : World) :
  markers_pending w → markers_pending (exec (settleActivation k o) w).
Proof.
  intros [Hhosts Htargets]. rewrite settleActivation_unfold.
  destruct (activations w !! k) as [a|] eqn:Hk; [|done].
  destruct (act_settled a); [done|]. cbn zeta.
  destruct (act_finally a) as [hostId|targetId] eqn:Hf;
    split; cbn [comp inProgressHostIds inProgressTargetIds
                set_inProgressHostIds set_inProgressTargetIds].
  - intros id [Hne Hin]%elem_of_pull.
    eapply (pending_other w _ k a); [done | | reflexivity | by apply Hhosts].
    rewrite Hf. congruence.
  - intros id Hin.
    eapply (pending_other w _ k a); [done | | reflexivity | by apply Htargets].
    by rewrite Hf.
  - intros id Hin.
    eapply (pending_other w _ k a); [done | | reflexivity | by apply Hhosts].
    by rewrite Hf.
  - intros id [Hne Hin]%elem_of_pull.
    eapply (pending_other w _ k a); [done | | reflexivity | by apply Htargets].
    rewrite Hf. congruence.
Qed.

Lemma handle_markers_pending (e : Event) (w : World) :
  markers_pending w → markers_pending (exec (handle e) w).
Proof.
  intros Hw.
  destruct e as [hostId| |targetId|value|hosts| |k o|k r]; cbn [handle].
  - rewrite exec_bind. fold (exec (selectHost hostId) w).
    destruct (autorun_frame (exec (selectHost hostId) w)) as (Ha & _ & Hh & Ht & _).
    apply (markers_pending_frame (exec (selectHost hostId) w)); try done.
    by apply selectHost_markers_pending.
  - rewrite exec_bind.
    destruct (autorun_frame (deselectHost w).2) as (Ha & _ & Hh & Ht & _).
    by apply (markers_pending_frame w).
  - by apply interceptTarget_markers_pending.
  - by apply (markers_pending_frame w).
  - rewrite exec_bind.
    destruct (autorun_frame (modify (set_fridaHosts hosts) w).2) as (Ha & _ & Hh & Ht & _).
    by apply (markers_pending_frame w).
  - apply (markers_pending_frame w); try done;
      (destruct (selectedHost (comp w)) as [h|] eqn:Hs;
       [by rewrite (updateTargets_selected _ h) | by rewrite updateTargets_unselected]).
  - by apply settleActivation_markers_pending.
  - apply (markers_pending_frame w); try done;
      (rewrite targetsResponse_unfold; destruct (fetches w !! k) as [f|]; [|done];
       destruct (fetch_done f); [done|]; by destruct r).
Qed.

(** ** The invariant *)

Lemma handle_invariant (e : Event) (w : World) :
  invariant w → invariant (exec (handle e) w).
Proof.
  intros (Hsel & Hcalls & Hmarks). split; [|split].
  - by apply handle_selected_is_listed.
  - by apply handle_calls_valid.
  - by apply handle_markers_pending.
Qed.

Lemma run_invariant (es : list Event) (w : World) :
  invariant w → invariant (run es w).
Proof.
  revert w. induction es as [|e es IH]; intros w Hw; cbn [run]; [done|].
  by apply IH, handle_invariant.
Qed.

(** ** Mounting *)

Lemma componentDidMount_unfold (w : World) :
  exec componentDidMount w =
    exec updateTargets
      (exec autorun
         match fridaHosts (comp w) with
         | [h] => if bool_decide (host_state h = available)
                  then exec (selectHost (host_id h)) w else w
         | _ => w
         end).
Proof.
  unfold componentDidMount. rewrite exec_bind. cbn [gets fst snd].
  rewrite !exec_bind. fold (exec autorun). do 2 f_equal.
  destruct (fridaHosts (comp w)) as [|h [|h' l]]; try done.
  by destruct (bool_decide _).
Qed.

Lemma mounted_unfold (hosts : list FridaHost) :
  mounted hosts =
    match hosts with
    | [h] =>
        if bool_decide (host_state h = available) then
          if bool_decide (host_id h ≠ "") then
            mkWorld (mkComponent hosts [] [] [] (Some (host_id h)) "") [] 
                    [mkFetch (host_id h) false; mkFetch (host_id h) false]
          else mkWorld (mkComponent hosts [] [] [] (Some (host_id h)) "") [] []
        else initial hosts
    | _ => initial hosts
    end.
Proof.
  unfold mounted. rewrite componentDidMount_unfold.
  assert (Hidle : ∀ l, exec updateTargets (exec autorun (initial l)) = initial l).
  { intros l. rewrite autorun_spec. cbn. rewrite updateTargets_unselected; reflexivity. }
  destruct hosts as [|h [|h' hosts]]; cbn [initial comp fridaHosts]; try apply Hidle.
  case_bool_decide as Hst; [|apply Hidle].
  rewrite selectHost_unfold.
  assert (Hsel : selecting (comp (initial [h])) (host_id h)
                 = if bool_decide (host_id h ≠ "") then Some h else None).
  { unfold selecting, selectedHost. cbn.
    rewrite (bool_decide_eq_true_2 (Some _ = Some _)) by done.
    rewrite Hst. cbn. by destruct (bool_decide (host_id h ≠ "")). }
  rewrite Hsel. case_bool_decide as Hid.
  - rewrite Hst. cbn zeta. rewrite (autorun_listed _ h); cbn; [|apply list_elem_of_here|done].
    rewrite (updateTargets_selected _ h); [reflexivity|]. exact Hsel.
  - cbn zeta. rewrite autorun_spec. cbn [comp selectedHostId set_selectedHostId initial truthy].
    rewrite (bool_decide_eq_false_2 (host_id h ≠ "")) by (by intros ?). cbn.
    rewrite updateTargets_unselected; [reflexivity|].
    unfold selectedHost. cbn. by rewrite bool_decide_eq_false_2 by (by intros ?).
Qed.

Lemma mounted_invariant (hosts : list FridaHost) : invariant (mounted hosts).
Proof.
  assert (Hinit : invariant (initial hosts)).
  { split; [|split]; [by intros sid | by apply Forall_nil | ].
    split; by intros id ?%elem_of_nil. }
  rewrite mounted_unfold.
  destruct hosts as [|h [|h' hosts]]; try done.
  case_bool_decide as Hst; [|done].
  case_bool_decide as Hid.
  - split; [|split].
    + intros sid [= <-] _. exists h. split; [apply list_elem_of_here | done].
    + by apply Forall_nil.
    + split; by intros id ?%elem_of_nil.
  - split; [|split].
    + by intros sid [= <-] Hne.
    + by apply Forall_nil.
    + split; by intros id ?%elem_of_nil.
Qed.

Lemma reachable_invariant (hosts : list FridaHost) (es : list Event) :
  invariant (run es (mounted hosts)).
Proof. apply run_invariant, mounted_invariant. Qed.

(** X1: when the component mounts with exactly one listed host that is
    available, [selectHost] is called for it: if its id is not empty it is
    the selected host and its targets are requested twice, by [selectHost]
    and by the first [updateTargets]; if its id is the empty string,
    [selectedHostId] becomes the empty string, no host is selected and
    nothing is requested.  In every other case (no host, several hosts, or
    a single host that is not available) mounting changes nothing: nothing
    is selected and nothing is requested. *)
Theorem mount_auto_select (hosts : list FridaHost) :
  (∀ h, hosts = [h] → host_state h = available → host_id h ≠ "" →
        selectedHost (comp (mounted hosts)) = Some h
        ∧ fetches (mounted hosts) = [mkFetch (host_id h) false; mkFetch (host_id h) false]
        ∧ activations (mounted hosts) = []
        ∧ fridaTargets (comp (mounted hosts)) = [])
  ∧ (∀ h, hosts = [h] → host_state h = available → host_id h = "" →
          mounted hosts = mkWorld (mkComponent hosts [] [] [] (Some "") "") [] []
          ∧ selectedHost (comp (mounted hosts)) = None)
  ∧ ((∀ h, hosts = [h] → host_state h ≠ available) →
     mounted hosts = initial hosts).
Proof.
  rewrite mounted_unfold. split_and!.
  - intros h -> Hst Hid. rewrite !bool_decide_eq_true_2 by done.
    repeat split. apply selectedHost_member; cbn; try done.
    + apply NoDup_singleton.
    + apply list_elem_of_here.
    + by rewrite Hst.
  - intros h -> Hst Hid. rewrite bool_decide_eq_true_2 by done.
    rewrite bool_decide_eq_false_2 by (by intros ?). by rewrite Hid.
  - intros Hnot. destruct hosts as [|h [|h' hosts]]; try done.
    rewrite bool_decide_eq_false_2; [done|]. by apply Hnot.
Qed.

(** A single available phone is selected at mount; two phones are not;
    a single available host without id gets the empty id stored. *)
Lemma mount_auto_select_witness :
  selectedHost (comp (mounted [Scenario.pixel])) = Some Scenario.pixel
  ∧ mounted [Scenario.pixel; Scenario.nexus] = initial [Scenario.pixel; Scenario.nexus]
  ∧ selectedHostId (comp (mounted [mkHost "" "Ghost" available])) = Some "".
Proof.
  split; [|split].
  - apply (proj1 (mount_auto_select [Scenario.pixel]) Scenario.pixel eq_refl eq_refl).
    discriminate.
  - apply (proj2 (proj2 (mount_auto_select [Scenario.pixel; Scenario.nexus]))).
    intros h Heq. discriminate Heq.
  - rewrite (proj1 (proj1 (proj2 (mount_auto_select [mkHost "" "Ghost" available]))
                      (mkHost "" "Ghost" available) eq_refl eq_refl eq_refl)).
    reflexivity.
Defined.

(** ** Invariants of the reachable states *)

(** X2: in every state the component reaches after mounting, a non-empty
    [selectedHostId] is the id of a host of the current list. *)
Theorem reachable_selected_is_listed
    (hosts : list FridaHost) (es : list Event) (sid : string) :
  let w := run es (mounted hosts) in
  selectedHostId (comp w) = Some sid → sid ≠ "" →
  ∃ h, h ∈ fridaHosts (comp w) ∧ host_id h = sid.
Proof. intros w. apply (reachable_invariant hosts es). Qed.

(** "A" is selected and the list is replaced by one that still has "A". *)
Lemma reachable_selected_is_listed_witness :
  ∃ h, h ∈ fridaHosts (comp (run [EvSelectHost "A"; EvHostsUpdate [Scenario.pixel_gone]]
                                 (mounted [Scenario.pixel; Scenario.nexus])))
       ∧ host_id h = "A".
Proof.
  apply (reachable_selected_is_listed [Scenario.pixel; Scenario.nexus]
           [EvSelectHost "A"; EvHostsUpdate [Scenario.pixel_gone]] "A").
  - reflexivity.
  - discriminate.
Defined.

(** X3: in every reachable state, every call of the Activation Service
    that was made was made for the host selected at that moment: a listed
    host with a non-empty id and a state other than 'unavailable'.  A
    'launch' call was made for a host in state 'launch-required', a 'setup'
    call for one in state 'setup-required', and the identifier of the call
    was in its in-progress array when the service was invoked. *)
Theorem reachable_calls_valid
    (hosts : list FridaHost) (es : list Event) (a : Activation) :
  a ∈ activations (run es (mounted hosts)) →
  ∃ h, h ∈ fridaHosts (act_seen a)
       ∧ selectedHostId (act_seen a) = Some (host_id h)
       ∧ host_id h ≠ "" ∧ host_state h ≠ unavailable
       ∧ match act_options a with
         | Launch hostId =>
             host_id h = hostId ∧ host_state h = launch_required
             ∧ hostId ∈ inProgressHostIds (act_seen a)
         | Setup hostId =>
             host_id h = hostId ∧ host_state h = setup_required
             ∧ hostId ∈ inProgressHostIds (act_seen a)
         | Intercept hostId targetId =>
             host_id h = hostId ∧ targetId ∈ inProgressTargetIds (act_seen a)
         end.
Proof.
  intros Hin.
  destruct (reachable_invariant hosts es) as (_ & Hcalls & _).
  rewrite Forall_forall in Hcalls. destruct (Hcalls a Hin) as (h & Hs & Hopt).
  exists h. destruct (selectedHost_Some _ _ Hs) as (Hid & Hne & Hlisted & Hst).
  repeat split; try done.
  destruct (act_options a); tauto.
Qed.

(** The launch of "B" is the only call after "B" was clicked. *)
Lemma reachable_calls_valid_witness :
  ∃ h, host_id h = "B" ∧ host_state h = launch_required.
Proof.
  destruct (reachable_calls_valid [Scenario.pixel; Scenario.nexus] [EvSelectHost "B"]
              (mkActivation (Launch "B")
                 (mkComponent [Scenario.pixel; Scenario.nexus] [] ["B"] [] (Some "B") "")
                 (PullHost "B") false))
    as (h & _ & _ & _ & _ & Hid & Hst & _).
  - apply list_elem_of_here.
  - by exists h.
Defined.

(** X4: in every reachable state, a host shown as activating has a
    pending 'launch' or 'setup' call for its id, and a target shown as
    activating has a pending 'intercept' call for its id.  So once every
    promise has settled nothing is shown as activating. *)
Theorem reachable_markers_pending (hosts : list FridaHost) (es : list Event) :
  let w := run es (mounted hosts) in
  (∀ hostId, hostActivating (comp w) hostId = true →
     ∃ k a, activations w !! k = Some a ∧ act_settled a = false
            ∧ (act_options a = Launch hostId ∨ act_options a = Setup hostId))
  ∧ (∀ targetId, targetActivating (comp w) targetId = true →
     ∃ k a hostId, activations w !! k = Some a ∧ act_settled a = false
                   ∧ act_options a = Intercept hostId targetId)
  ∧ ((∀ a, a ∈ activations w → act_settled a = true) →
     inProgressHostIds (comp w) = [] ∧ inProgressTargetIds (comp w) = []).
Proof.
  intros w. destruct (reachable_invariant hosts es) as (_ & Hcalls & Hhosts & Htargets).
  fold w in Hcalls, Hhosts, Htargets.
  assert (Hh : ∀ hostId, hostId ∈ inProgressHostIds (comp w) →
     ∃ k a, activations w !! k = Some a ∧ act_settled a = false
            ∧ (act_options a = Launch hostId ∨ act_options a = Setup hostId)).
  { intros hostId (k & a & Hk & Hp & Hf)%Hhosts. exists k, a. repeat split; try done.
    destruct (Forall_lookup_1 _ _ _ _ Hcalls Hk) as (h & _ & Hopt).
    destruct (act_options a); rewrite Hf in Hopt.
    - destruct Hopt as (_ & _ & _ & [= ->]). by left.
    - destruct Hopt as (_ & _ & _ & [= ->]). by right.
    - by destruct Hopt as (_ & _ & ?). }
  assert (Ht : ∀ targetId, targetId ∈ inProgressTargetIds (comp w) →
     ∃ k a hostId, activations w !! k = Some a ∧ act_settled a = false
                   ∧ act_options a = Intercept hostId targetId).
  { intros targetId (k & a & Hk & Hp & Hf)%Htargets.
    destruct (Forall_lookup_1 _ _ _ _ Hcalls Hk) as (h & _ & Hopt).
    destruct (act_options a) as [hid|hid|hid tid] eqn:Ho; rewrite Hf in Hopt.
    - by destruct Hopt as (_ & _ & _ & ?).
    - by destruct Hopt as (_ & _ & _ & ?).
    - destruct Hopt as (_ & _ & [= ->]). by exists k, a, hid. }
  split; [|split].
  - intros hostId Hact. by apply Hh, includes_true.
  - intros targetId Hact. by apply Ht, includes_true.
  - intros Hall. split.
    + destruct (inProgressHostIds (comp w)) as [|x l] eqn:Hl; [done|].
      destruct (Hh x) as (k & a & Hk & Hp & _); [rewrite ?Hl; apply list_elem_of_here|].
      rewrite Hall in Hp; [done|]. by eapply list_elem_of_lookup_2.
    + destruct (inProgressTargetIds (comp w)) as [|x l] eqn:Hl; [done|].
      destruct (Ht x) as (k & a & hid & Hk & Hp & _); [rewrite ?Hl; apply list_elem_of_here|].
      rewrite Hall in Hp; [done|]. by eapply list_elem_of_lookup_2.
Qed.

(** "B" is being launched; after the promise is rejected no spinner is
    left. *)
Lemma reachable_markers_pending_witness :
  (∃ k a, activations (run [EvSelectHost "B"] (mounted [Scenario.pixel; Scenario.nexus])) !! k
          = Some a ∧ act_settled a = false
          ∧ (act_options a = Launch "B" ∨ act_options a = Setup "B"))
  ∧ inProgressHostIds
      (comp (run [EvSelectHost "B"; EvActivationSettled 0 Rejected]
                 (mounted [Scenario.pixel; Scenario.nexus]))) = [].
Proof.
  split.
  - apply (proj1 (reachable_markers_pending [Scenario.pixel; Scenario.nexus]
                    [EvSelectHost "B"]) "B").
    reflexivity.
  - apply (proj2 (proj2 (reachable_markers_pending [Scenario.pixel; Scenario.nexus]
                           [EvSelectHost "B"; EvActivationSettled 0 Rejected]))).
    intros a Hin. apply list_elem_of_singleton in Hin as ->. reflexivity.
Defined.

(** ** The selected host *)

(** X16: the selected host is a listed host that carries the selected id
    and is not 'unavailable', and the selected id is then not empty; with
    distinct host ids it is the listed host with these properties.  There
    is no selected host exactly when the selected id is undefined or empty,
    or every listed host that carries it is 'unavailable'. *)
Theorem selectedHost_characterised (c : Component) :
  (∀ h, selectedHost c = Some h →
        selectedHostId c = Some (host_id h) ∧ host_id h ≠ ""
        ∧ h ∈ fridaHosts c ∧ host_state h ≠ unavailable)
  ∧ (∀ h, NoDup (host_id <$> fridaHosts c) →
          h ∈ fridaHosts c → host_id h ≠ "" → host_state h ≠ unavailable →
          selectedHostId c = Some (host_id h) →
          selectedHost c = Some h)
  ∧ (selectedHost c = None ↔
     selectedHostId c = None ∨ selectedHostId c = Some ""
     ∨ ∃ sid, selectedHostId c = Some sid
              ∧ ∀ h, h ∈ fridaHosts c → host_id h = sid → host_state h = unavailable).
Proof.
  split_and!.
  - intros h. apply selectedHost_Some.
  - intros h. apply selectedHost_member.
  - split.
    + intros Hnone. destruct (selectedHostId c) as [sid|] eqn:Hsid; [|by left].
      destruct (decide (sid = "")) as [->|Hne]; [by right; left|].
      right; right. exists sid. split; [done|]. intros h Hin Hid.
      unfold selectedHost in Hnone. rewrite Hsid in Hnone. cbn [truthy] in Hnone.
      rewrite bool_decide_eq_true_2 in Hnone by done.
      pose proof (proj1 (find_None_iff _ _) Hnone h Hin) as Hf. cbn beta in Hf.
      rewrite Hid, (bool_decide_eq_true_2 (Some sid = Some sid)) in Hf by done.
      cbn [andb] in Hf. apply bool_decide_eq_false in Hf.
      by destruct (decide (host_state h = unavailable)).
    + intros [Hnone|[Hempty|(sid & Hsid & Hall)]].
      * by apply selectedHost_None_unselected.
      * unfold selectedHost. by rewrite Hempty.
      * by apply (selectedHost_None_invalid _ sid).
Qed.

(** In the list of the scenario "A" is selectable and is found. *)
Lemma selectedHost_characterised_witness :
  selectedHost (set_selectedHostId (Some "A") (comp Scenario.idle)) = Some Scenario.pixel.
Proof.
  apply (proj1 (proj2 (selectedHost_characterised
                         (set_selectedHostId (Some "A") (comp Scenario.idle))))).
  - apply (bool_decide_unpack _). reflexivity.
  - apply list_elem_of_here.
  - discriminate.
  - discriminate.
  - reflexivity.
Defined.

(** ** Selecting a host *)

(** X5: a click on a host that [selectHost] finds in state 'available'
    makes it the selected host and requests its targets once.  The
    Activation Service is not invoked, the in-progress arrays are not
    changed, and the targets loaded before stay in [fridaTargets] until an
    answer arrives. *)
Theorem select_available_host (w : World) (hostId : string) (h : FridaHost) :
  selecting (comp w) hostId = Some h → host_state h = available →
  let w' := exec (handle (EvSelectHost hostId)) w in
  selectedHost (comp w') = Some h
  ∧ selectedHostId (comp w') = Some hostId
  ∧ fetches w' = fetches w ++ [mkFetch hostId false]
  ∧ activations w' = activations w
  ∧ fridaTargets (comp w') = fridaTargets (comp w)
  ∧ inProgressHostIds (comp w') = inProgressHostIds (comp w)
  ∧ inProgressTargetIds (comp w') = inProgressTargetIds (comp w).
Proof.
  intros Hs Hst w'. subst w'.
  destruct (selecting_id _ _ _ Hs) as [Hid Hne].
  assert (Hlisted : h ∈ fridaHosts (comp w)).
  { by apply selectedHost_Some in Hs as (_ & _ & Hin & _). }
  rewrite handle_selectHost, selectHost_unfold, Hs, Hst. cbn zeta.
  rewrite (autorun_listed _ h); cbn; [|done|by rewrite Hid].
  rewrite Hid. by repeat split.
Qed.

Lemma select_available_host_witness :
  fetches (exec (handle (EvSelectHost "A")) Scenario.idle) = [mkFetch "A" false]
  ∧ activations (exec (handle (EvSelectHost "A")) Scenario.idle) = [].
Proof.
  destruct (select_available_host Scenario.idle "A" Scenario.pixel eq_refl eq_refl)
    as (_ & _ & Hf & Ha & _).
  split; [exact Hf | exact Ha].
Defined.

(** X6: a click on a host id for which [selectHost] finds no selectable
    host calls no service, requests no targets and marks nothing.  If no
    listed host has the id, the autorun clears the selection, whatever was
    selected before.  If the id is listed (its hosts are 'unavailable'), it
    stays in [selectedHostId]: as soon as a discovery update lists a host of
    that id in another state, this host is the selected host, without a
    click, a reset of the search input or a request for its targets. *)
Theorem select_unselectable_host (w : World) (hostId : string) :
  selecting (comp w) hostId = None → hostId ≠ "" →
  let w' := exec (handle (EvSelectHost hostId)) w in
  activations w' = activations w ∧ fetches w' = fetches w
  ∧ inProgressHostIds (comp w') = inProgressHostIds (comp w)
  ∧ searchInput (comp w') = searchInput (comp w)
  ∧ fridaTargets (comp w') = fridaTargets (comp w)
  ∧ selectedHost (comp w') = None
  ∧ ((∀ h, h ∈ fridaHosts (comp w) → host_id h ≠ hostId) →
     selectedHostId (comp w') = None)
  ∧ ((∃ h, h ∈ fridaHosts (comp w) ∧ host_id h = hostId) →
     selectedHostId (comp w') = Some hostId
     ∧ ∀ hosts h,
         selectedHost (set_fridaHosts hosts (comp w')) = Some h →
         let w'' := exec (handle (EvHostsUpdate hosts)) w' in
         selectedHost (comp w'') = Some h
         ∧ searchInput (comp w'') = searchInput (comp w)
         ∧ fetches w'' = fetches w ∧ activations w'' = activations w).
Proof.
  intros Hs Hne w'.
  assert (Hw' : w' = exec autorun
                       (mkWorld (set_selectedHostId (Some hostId) (comp w))
                                (activations w) (fetches w))).
  { subst w'. by rewrite handle_selectHost, selectHost_unfold, Hs. }
  clearbody w'. subst w'. rewrite autorun_spec.
  cbn [comp selectedHostId set_selectedHostId fridaHosts truthy].
  rewrite (bool_decide_eq_true_2 (hostId ≠ "")) by done. cbn [andb].
  destruct (existsb _ (fridaHosts (comp w))) eqn:Hex; cbn [negb].
  - apply existsb_id_true in Hex as (h0 & Hin0 & Hid0).
    split_and!; try done.
    + intros Habs. by destruct (Habs h0 Hin0).
    + intros _. split; [done|]. intros hosts h Hsel'. rewrite hosts_update_spec.
      cbn [comp selectedHostId set_selectedHostId truthy].
      destruct (selectedHost_Some _ _ Hsel') as (Hid & _ & Hin & _).
      cbn in Hid, Hin. injection Hid as Hid.
      assert (Hex' : existsb (λ host, bool_decide (Some (host_id host) = Some hostId)) hosts
                     = true).
      { apply existsb_id_true. eauto. }
      rewrite Hex', andb_false_r. by split_and!.
  - assert (Hnone : ¬ ∃ h, h ∈ fridaHosts (comp w) ∧ host_id h = hostId).
    { intros Hsome. apply existsb_id_true in Hsome. congruence. }
    split_and!; try done.
Qed.

(** The unavailable host "A" is clicked; the next list reports it
    available, and it is the selected host. *)
Lemma select_unselectable_host_witness :
  let w := initial [Scenario.pixel_gone] in
  let w' := exec (handle (EvSelectHost "A")) w in
  selectedHost (comp w') = None
  ∧ selectedHost (comp (exec (handle (EvHostsUpdate [Scenario.pixel])) w'))
    = Some Scenario.pixel.
Proof.
  intros w w'.
  assert (Hne : "A" ≠ "") by discriminate.
  destruct (select_unselectable_host w "A" eq_refl Hne)
    as (_ & _ & _ & _ & _ & Hnone & _ & Hlisted).
  split; [exact Hnone|].
  destruct Hlisted as [_ Hrevive].
  - exists Scenario.pixel_gone. split; [apply list_elem_of_here | reflexivity].
  - exact (proj1 (Hrevive [Scenario.pixel] Scenario.pixel eq_refl)).
Defined.

(** ** What the events leave alone *)

(** X7: the host list is only replaced by a discovery update; the loaded
    targets are only changed by the timer and by answers to target
    requests, never by a click; the search input only by typing and by
    selecting a host; the selected id only by selecting, deselecting and
    discovery updates; and an in-progress array only by the clicks that
    start an activation and by the settling of a promise. *)
Theorem event_frame (e : Event) (w : World) :
  let c := comp w in
  let c' := comp (exec (handle e) w) in
  (match e with EvHostsUpdate _ => False | _ => True end →
   fridaHosts c' = fridaHosts c)
  ∧ (match e with EvTick | EvTargetsResponse _ _ => False | _ => True end →
     fridaTargets c' = fridaTargets c)
  ∧ (match e with EvSelectHost _ | EvSearchChange _ => False | _ => True end →
     searchInput c' = searchInput c)
  ∧ (match e with EvSelectHost _ | EvDeselectHost | EvHostsUpdate _ => False | _ => True end →
     selectedHostId c' = selectedHostId c)
  ∧ (match e with EvSelectHost _ | EvActivationSettled _ _ => False | _ => True end →
     inProgressHostIds c' = inProgressHostIds c)
  ∧ (match e with EvInterceptTarget _ | EvActivationSettled _ _ => False | _ => True end →
     inProgressTargetIds c' = inProgressTargetIds c).
Proof.
  destruct e as [hostId| |targetId|value|hosts| |k o|k r]; cbn [handle]; cbn zeta.
  - rewrite exec_bind. fold (exec (selectHost hostId) w).
    destruct (autorun_frame (exec (selectHost hostId) w)) as (_ & _ & Hh & Ht & Hts & Hsi & Hhs).
    rewrite Hhs, Hts, Ht. rewrite selectHost_unfold.
    destruct (selecting (comp w) hostId) as [[i n []]|]; by repeat split.
  - rewrite exec_bind, autorun_spec. destruct (truthy _ && negb _); by repeat split.
  - rewrite interceptTarget_unfold. destruct (selectedHost (comp w)); by repeat split.
  - by repeat split.
  - rewrite exec_bind, autorun_spec. destruct (truthy _ && negb _); by repeat split.
  - destruct (selectedHost (comp w)) as [h|] eqn:Hs.
    + rewrite (updateTargets_selected _ h) by done. by repeat split.
    + rewrite updateTargets_unselected by done. by repeat split.
  - rewrite settleActivation_unfold. destruct (activations w !! k) as [a|]; [|by repeat split].
    destruct (act_settled a); [by repeat split|]. destruct (act_finally a); by repeat split.
  - rewrite targetsResponse_unfold. destruct (fetches w !! k) as [f|]; [|by repeat split].
    destruct (fetch_done f); [by repeat split|]. destruct r; by repeat split.
Qed.

(** Clicking the launch-required host "B" while "A" is browsed leaves the
    loaded targets of "A" in place. *)
Lemma event_frame_witness :
  fridaTargets (comp (exec (handle (EvSelectHost "B")) Scenario.browsing))
  = [Scenario.browser].
Proof.
  exact (proj1 (proj2 (event_frame (EvSelectHost "B") Scenario.browsing)) I).
Defined.

(** ** Polling *)

(** X8: while a host is selected every tick of the timer sends one more
    request for its targets and changes nothing else: [n] ticks without an
    answer leave [n] more pending requests.  While no host is selected,
    ticks send nothing and leave [fridaTargets] empty. *)
Theorem ticks_accumulate (w : World) (n : nat) :
  (∀ h, selectedHost (comp w) = Some h →
        run (repeat EvTick n) w
        = mkWorld (comp w) (activations w)
                  (fetches w ++ repeat (mkFetch (host_id h) false) n))
  ∧ (selectedHost (comp w) = None →
     run (repeat EvTick (S n)) w
     = mkWorld (set_fridaTargets [] (comp w)) (activations w) (fetches w)).
Proof.
  split.
  - intros h. revert w. induction n as [|n IH]; intros w Hs; cbn [repeat run].
    + rewrite app_nil_r. by destruct w.
    + cbn [handle]. rewrite (updateTargets_selected _ h) by done.
      rewrite IH by done. cbn. by rewrite <- app_assoc.
  - intros Hs. cbn [repeat run handle]. rewrite updateTargets_unselected by done.
    induction n as [|n IH]; cbn [repeat run handle]; [done|].
    by rewrite updateTargets_unselected.
Qed.

Lemma ticks_accumulate_witness :
  fetches (run (repeat EvTick 3) (mounted [Scenario.pixel]))
  = [mkFetch "A" false; mkFetch "A" false; mkFetch "A" false; mkFetch "A" false;
     mkFetch "A" false].
Proof.
  rewrite (proj1 (ticks_accumulate (mounted [Scenario.pixel]) 3) Scenario.pixel eq_refl).
  reflexivity.
Defined.

(** ** Strings *)

Lemma append_cons (x : ascii) (a b : string) : String x a +:+ b = String x (a +:+ b).
Proof. reflexivity. Qed.

Lemma append_assoc (a b c : string) : (a +:+ b) +:+ c = a +:+ b +:+ c.
Proof. induction a as [|x a IH]; [done|]. by rewrite !append_cons, IH. Qed.

Lemma append_nil_r (a : string) : a +:+ "" = a.
Proof. induction a as [|x a IH]; [done|]. by rewrite append_cons, IH. Qed.

Lemma prefix_true (sub s : string) :
  String.prefix sub s = true ↔ ∃ post, s = sub +:+ post.
Proof.
  revert s. induction sub as [|a sub IH]; intros s.
  - split; [intros _; by exists s|]. intros _. by destruct s.
  - destruct s as [|b s]; simpl.
    + split; [done|]. intros [post Hpost]. by rewrite append_cons in Hpost.
    + destruct (ascii_dec a b) as [->|Hne].
      * rewrite IH. split; intros [post Hpost]; exists post.
        -- by rewrite append_cons, Hpost.
        -- rewrite append_cons in Hpost. congruence.
      * split; [done|]. intros [post Hpost]. rewrite append_cons in Hpost. congruence.
Qed.

(** [includes] is the substring test. *)
Lemma str_includes_true (s sub : string) :
  str_includes s sub = true ↔ ∃ pre post, s = pre +:+ sub +:+ post.
Proof.
  induction s as [|a s IH]; cbn [str_includes]; rewrite orb_true_iff, prefix_true.
  - split.
    + intros [[post Hpost]|?]; [|done]. by exists "", post.
    + intros (pre & post & Heq). left. destruct pre; [by exists post|done].
  - rewrite IH. split.
    + intros [[post Hpost]|(pre & post & Heq)].
      * by exists "", post.
      * exists (String a pre), post. by rewrite append_cons, Heq.
    + intros (pre & post & Heq). destruct pre as [|b pre].
      * left. by exists post.
      * right. rewrite append_cons in Heq. injection Heq as -> Heq. by exists pre, post.
Qed.

Lemma str_includes_empty (s : string) : str_includes s "" = true.
Proof. apply str_includes_true. by exists "", s. Qed.

Lemma str_includes_trans (s mid sub : string) :
  str_includes s mid = true → str_includes mid sub = true →
  str_includes s sub = true.
Proof.
  rewrite !str_includes_true.
  intros (p2 & q2 & ->) (p1 & q1 & ->).
  exists (p2 +:+ p1), (q1 +:+ q2). by rewrite !append_assoc.
Qed.

(** ** The address pattern *)

Lemma skip_digits_app (d r : string) :
  all_digits d = true → skip_digits (d +:+ r) = skip_digits r.
Proof.
  induction d as [|a d IH]; [done|]. rewrite append_cons. simpl.
  intros [Ha Hd]%andb_true_iff. rewrite Ha. by apply IH.
Qed.

Lemma skip_digits_split (s : string) :
  ∃ d, all_digits d = true ∧ s = d +:+ skip_digits s.
Proof.
  induction s as [|a s (d & Hd & Hs)]; [by exists ""|]. simpl.
  destruct (is_digit a) eqn:Ha.
  - exists (String a d). simpl. rewrite Ha, Hd. split; [done|].
    by rewrite append_cons, <- Hs.
  - by exists "".
Qed.

Lemma digits1_app (d r : string) :
  digit_string d = true → digits1 (d +:+ r) = Some (skip_digits r).
Proof.
  destruct d as [|a d]; [done|]. rewrite append_cons. simpl.
  intros [Ha Hd]%andb_true_iff. rewrite Ha. by rewrite skip_digits_app.
Qed.

Lemma digits1_Some (s r : string) :
  digits1 s = Some r → ∃ d, digit_string d = true ∧ s = d +:+ r.
Proof.
  destruct s as [|a s]; [done|]. simpl. destruct (is_digit a) eqn:Ha; [|done].
  intros [= <-]. destruct (skip_digits_split s) as (d & Hd & Hs).
  exists (String a d). simpl. rewrite Ha, Hd. split; [done|].
  by rewrite append_cons, <- Hs.
Qed.

Lemma literal_Some (c : ascii) (s r : string) :
  literal c s = Some r → s = String c r.
Proof.
  destruct s as [|a s]; [done|]. simpl.
  destruct (Ascii.eqb_spec a c) as [->|]; [|done]. by intros [= ->].
Qed.

Lemma literal_here (c : ascii) (r : string) : literal c (String c r) = Some r.
Proof. simpl. by rewrite Ascii.eqb_refl. Qed.

(** The pattern matches at the head of the string exactly when the string
    starts with four digit groups separated by full stops, a colon and a
    fifth digit group. *)
Lemma address_here_true (s : string) :
  address_here s = true ↔
  ∃ d1 d2 d3 d4 d5 post,
    digit_string d1 = true ∧ digit_string d2 = true ∧ digit_string d3 = true
    ∧ digit_string d4 = true ∧ digit_string d5 = true
    ∧ s = d1 +:+ "." +:+ d2 +:+ "." +:+ d3 +:+ "." +:+ d4 +:+ ":" +:+ d5 +:+ post.
Proof.
  unfold address_here. split.
  - destruct (digits1 s) as [r1|] eqn:H1; [simpl|done].
    destruct (literal "." r1) as [r2|] eqn:H2; [simpl|done].
    destruct (digits1 r2) as [r3|] eqn:H3; [simpl|done].
    destruct (literal "." r3) as [r4|] eqn:H4; [simpl|done].
    destruct (digits1 r4) as [r5|] eqn:H5; [simpl|done].
    destruct (literal "." r5) as [r6|] eqn:H6; [simpl|done].
    destruct (digits1 r6) as [r7|] eqn:H7; [simpl|done].
    destruct (literal ":" r7) as [r8|] eqn:H8; [simpl|done].
    destruct (digits1 r8) as [r9|] eqn:H9; [|done]. intros _.
    apply digits1_Some in H1 as (d1 & Hd1 & ->).
    apply digits1_Some in H3 as (d2 & Hd2 & ->).
    apply digits1_Some in H5 as (d3 & Hd3 & ->).
    apply digits1_Some in H7 as (d4 & Hd4 & ->).
    apply digits1_Some in H9 as (d5 & Hd5 & ->).
    apply literal_Some in H2 as ->. apply literal_Some in H4 as ->.
    apply literal_Some in H6 as ->. apply literal_Some in H8 as ->.
    by exists d1, d2, d3, d4, d5, r9.
  - intros (d1 & d2 & d3 & d4 & d5 & post & H1 & H2 & H3 & H4 & H5 & ->).
    rewrite !(append_cons "." ""), !(append_cons ":" "").
    change (String.append "") with (λ s : string, s). cbn beta.
    rewrite (digits1_app d1) by done. simpl.
    rewrite (digits1_app d2) by done. simpl.
    rewrite (digits1_app d3) by done. simpl.
    rewrite (digits1_app d4) by done. simpl.
    by rewrite (digits1_app d5).
Qed.

Lemma matches_address_true (s : string) :
  matches_address s = true ↔
  ∃ pre d1 d2 d3 d4 d5 post,
    digit_string d1 = true ∧ digit_string d2 = true ∧ digit_string d3 = true
    ∧ digit_string d4 = true ∧ digit_string d5 = true
    ∧ s = pre +:+ d1 +:+ "." +:+ d2 +:+ "." +:+ d3 +:+ "." +:+ d4 +:+ ":" +:+ d5 +:+ post.
Proof.
  induction s as [|a s IH]; cbn [matches_address]; rewrite orb_true_iff, address_here_true.
  - split.
    + intros [(d1 & d2 & d3 & d4 & d5 & post & H)|?]; [|done].
      by exists "", d1, d2, d3, d4, d5, post.
    + intros (pre & d1 & d2 & d3 & d4 & d5 & post & H1 & H2 & H3 & H4 & H5 & Heq).
      left. destruct pre; [|done]. by exists d1, d2, d3, d4, d5, post.
  - rewrite IH. split.
    + intros [(d1 & d2 & d3 & d4 & d5 & post & H)
             |(pre & d1 & d2 & d3 & d4 & d5 & post & H1 & H2 & H3 & H4 & H5 & Heq)].
      * by exists "", d1, d2, d3, d4, d5, post.
      * exists (String a pre), d1, d2, d3, d4, d5, post.
        rewrite append_cons, <- Heq. by repeat split.
    + intros (pre & d1 & d2 & d3 & d4 & d5 & post & H1 & H2 & H3 & H4 & H5 & Heq).
      destruct pre as [|b pre].
      * left. by exists d1, d2, d3, d4, d5, post.
      * right. rewrite append_cons in Heq. injection Heq as -> Heq.
        by exists pre, d1, d2, d3, d4, d5, post.
Qed.

(** ** [render] *)

Lemma sublist_list_filter {A} (f : A → bool) (l : list A) : sublist (List.filter f l) l.
Proof.
  induction l as [|x l IH]; simpl; [constructor|].
  destruct (f x); by constructor.
Qed.

Lemma handle_select_available (w : World) (hostId : string) (h : FridaHost) :
  selecting (comp w) hostId = Some h → host_state h = available →
  exec (handle (EvSelectHost hostId)) w
  = mkWorld (set_searchInput "" (set_selectedHostId (Some hostId) (comp w)))
            (activations w) (fetches w ++ [mkFetch hostId false]).
Proof.
  intros Hs Hst. destruct (selecting_id _ _ _ Hs) as [Hid Hne].
  assert (Hlisted : h ∈ fridaHosts (comp w)).
  { by apply selectedHost_Some in Hs as (_ & _ & Hin & _). }
  rewrite handle_selectHost, selectHost_unfold, Hs, Hst. cbn zeta.
  rewrite (autorun_listed _ h); cbn; [|done|by rewrite Hid]. by rewrite Hid.
Qed.

Section RenderProps.

Variable toLowerCase : string → string.

(** X9: while a host is selected, [render] shows the search box with the
    search input and lists, in the order of [fridaTargets], exactly the
    loaded targets whose lower-cased name contains the lower-cased search
    input; a search input that lower-cases to the empty string hides
    nothing.  A listed target is shown as activating exactly when its id is
    in [inProgressTargetIds]. *)
Theorem target_view (c : Component) (h : FridaHost) :
  selectedHost c = Some h →
  ∃ shown,
    render toLowerCase c = TargetView (searchInput c) (map (target_entry c) shown)
    ∧ sublist shown (fridaTargets c)
    ∧ (∀ t, t ∈ shown ↔
            t ∈ fridaTargets c
            ∧ ∃ pre post, toLowerCase (target_name t)
                          = pre +:+ toLowerCase (searchInput c) +:+ post)
    ∧ (toLowerCase (searchInput c) = "" → shown = fridaTargets c)
    ∧ (∀ t, entry_status (target_entry c t) = status_activating
            ↔ target_id t ∈ inProgressTargetIds c).
Proof.
  intros Hs. exists (filteredTargets toLowerCase c). split_and!.
  - unfold render. by rewrite Hs.
  - apply sublist_list_filter.
  - intros t. unfold filteredTargets.
    rewrite list_elem_of_In, filter_In, <- list_elem_of_In. by rewrite str_includes_true.
  - intros Hq. unfold filteredTargets. rewrite Hq.
    induction (fridaTargets c) as [|t l IH]; simpl; [done|].
    by rewrite str_includes_empty, IH.
  - intros t. unfold target_entry. cbn [entry_status].
    destruct (includes (inProgressTargetIds c) (target_id t)) eqn:Hin.
    + apply includes_true in Hin. tauto.
    + apply includes_false in Hin. split; [done|tauto].
Qed.

(** X10: typing a search text that contains the previous one (after
    lower-casing) never brings back a target that was filtered out. *)
Theorem search_narrows (w : World) (typed : string) (t : FridaTarget) :
  str_includes (toLowerCase typed) (toLowerCase (searchInput (comp w))) = true →
  t ∈ filteredTargets toLowerCase (comp (exec (handle (EvSearchChange typed)) w)) →
  t ∈ filteredTargets toLowerCase (comp w).
Proof.
  intros Hext. unfold filteredTargets. cbn.
  rewrite !list_elem_of_In, !filter_In. intros [Hin Hinc]. split; [done|].
  by eapply str_includes_trans.
Qed.

(** X11: right after a click on an available host the view is the target
    list with an empty search box, and, if the empty string lower-cases to
    itself, it lists every target that was loaded before the click, whichever
    host they were loaded for. *)
Theorem select_shows_loaded_targets (w : World) (hostId : string) (h : FridaHost) :
  selecting (comp w) hostId = Some h → host_state h = available →
  toLowerCase "" = "" →
  let c' := comp (exec (handle (EvSelectHost hostId)) w) in
  render toLowerCase c' = TargetView "" (map (target_entry c') (fridaTargets (comp w))).
Proof.
  intros Hs Hst Hempty c'. subst c'. rewrite (handle_select_available _ _ h) by done.
  cbn [comp]. unfold render.
  change (selectedHost (set_searchInput "" (set_selectedHostId (Some hostId) (comp w))))
    with (selecting (comp w) hostId).
  rewrite Hs. f_equal. f_equal. unfold filteredTargets. cbn. rewrite Hempty.
  induction (fridaTargets (comp w)) as [|t l IH]; simpl; [done|].
  by rewrite str_includes_empty, IH.
Qed.

(** X12: while no host is selected, [render] lists the hosts in their
    order.  A host whose id is in [inProgressHostIds] is shown as
    activating with a spinner.  Otherwise it is shown as unavailable
    exactly when its state is 'unavailable', with the window icon exactly
    when its id contains "emulator-", and with the network icon exactly
    when its id does not contain "emulator-" and contains four groups of
    digits separated by full stops, a colon and a fifth group of digits. *)
Theorem host_view (c : Component) :
  selectedHost c = None →
  render toLowerCase c = HostView (map (host_entry c) (fridaHosts c))
  ∧ map entry_id (map (host_entry c) (fridaHosts c)) = map host_id (fridaHosts c)
  ∧ ∀ host,
      let e := host_entry c host in
      let emulator := ∃ pre post, host_id host = pre +:+ "emulator-" +:+ post in
      (hostActivating c (host_id host) = true →
       entry_status e = status_activating ∧ entry_icon e = Some icon_spinner)
      ∧ (hostActivating c (host_id host) = false →
         (entry_status e = status_unavailable ↔ host_state host = unavailable)
         ∧ (entry_status e = status_available ↔ host_state host ≠ unavailable)
         ∧ (entry_icon e = Some icon_window_maximize ↔ emulator)
         ∧ (entry_icon e = Some icon_network_wired ↔
            ¬ emulator
            ∧ ∃ pre d1 d2 d3 d4 d5 post,
                digit_string d1 = true ∧ digit_string d2 = true
                ∧ digit_string d3 = true ∧ digit_string d4 = true
                ∧ digit_string d5 = true
                ∧ host_id host = pre +:+ d1 +:+ "." +:+ d2 +:+ "." +:+ d3 +:+ "."
                                 +:+ d4 +:+ ":" +:+ d5 +:+ post)).
Proof.
  intros Hs. split_and!.
  - unfold render. by rewrite Hs.
  - rewrite map_map. by apply map_ext.
  - intros host e emulator. subst e emulator. unfold host_entry, hostActivating.
    cbn [entry_status entry_icon]. split; intros ->; [done|].
    rewrite <- str_includes_true, <- matches_address_true.
    split_and!.
    + case_bool_decide; split; done.
    + case_bool_decide; split; done.
    + destruct (str_includes (host_id host) "emulator-"); [done|].
      destruct (matches_address (host_id host)); split; done.
    + destruct (str_includes (host_id host) "emulator-"); [split; [done|]; by intros [? _]|].
      destruct (matches_address (host_id host)); split; try done.
      * by intros [_ ?].
Qed.

End RenderProps.

Lemma target_view_witness :
  ∃ shown,
    render Scenario.lower (comp (exec (handle (EvSearchChange "CHR")) Scenario.browsing_two))
    = TargetView "CHR" (map (target_entry (comp Scenario.browsing_two)) shown)
    ∧ sublist shown [Scenario.browser; Scenario.maps].
Proof.
  destruct (target_view Scenario.lower
              (comp (exec (handle (EvSearchChange "CHR")) Scenario.browsing_two))
              Scenario.pixel eq_refl)
    as (shown & Hrender & Hsub & _).
  exists shown. split; [exact Hrender | exact Hsub].
Defined.

Lemma search_narrows_witness :
  Scenario.browser
  ∈ filteredTargets Scenario.lower
      (comp (exec (handle (EvSearchChange "ch")) Scenario.browsing_two)).
Proof.
  apply (search_narrows Scenario.lower
           (exec (handle (EvSearchChange "ch")) Scenario.browsing_two) "Chr").
  - reflexivity.
  - apply list_elem_of_here.
Defined.

Lemma select_shows_loaded_targets_witness :
  render Scenario.lower (comp (exec (handle (EvSelectHost "A")) Scenario.browsing_two))
  = TargetView "" (map (target_entry (comp Scenario.browsing_two))
                       [Scenario.browser; Scenario.maps]).
Proof.
  exact (select_shows_loaded_targets Scenario.lower Scenario.browsing_two "A"
           Scenario.pixel eq_refl eq_refl eq_refl).
Defined.

Lemma host_view_witness :
  render Scenario.lower (comp Scenario.idle)
  = HostView (map (host_entry (comp Scenario.idle)) [Scenario.pixel; Scenario.nexus;
                                                      Scenario.tablet]).
Proof.
  exact (proj1 (host_view Scenario.lower (comp Scenario.idle) eq_refl)).
Defined.

End FridaExtra.

(* ===================================================================== *)
(** * Further properties of ExchangeRequestBreakpointCard                  *)
(* ===================================================================== *)

Module BreakpointExtra.
Import BreakpointCard BreakpointProps.

(** ** The method select *)

(** X13: the method select always offers the current method, and every
    valid method, each once: for a valid current method the options are the
    valid methods, in their order; for any other method one more option
    comes first, labelled with that method and without a value.  The keys
    of the options are distinct when the valid methods are. *)
Theorem method_options_offer (validMethods : list string) (method : string) :
  let options := method_options validMethods method in
  method ∈ map option_label options
  ∧ (method ∈ validMethods →
     options = map (λ m, mkOption m (Some m) m) validMethods)
  ∧ (method ∉ validMethods →
     options = mkOption method None method
               :: map (λ m, mkOption m (Some m) m) validMethods)
  ∧ (NoDup validMethods → NoDup (map option_key options)).
Proof.
  cbn zeta. unfold method_options.
  assert (Hkeys : ∀ f : MethodOption → string,
            (∀ m v, f (mkOption m v m) = m) →
            map f (map (λ m, mkOption m (Some m) m) validMethods) = validMethods).
  { intros f Hf. rewrite map_map. rewrite <- (map_id validMethods) at 2.
    apply map_ext. intros m. apply Hf. }
  case_bool_decide as Hvalid; cbn [app]; split_and!; try done.
  - by rewrite (Hkeys option_label).
  - intros Hnd. by rewrite (Hkeys option_key).
  - cbn [map option_label]. apply list_elem_of_here.
  - intros Hnd. cbn [map option_key]. rewrite (Hkeys option_key) by done.
    by apply NoDup_cons_2.
Qed.

(** PURGE is not a valid method: it is offered first, before GET and
    POST. *)
Lemma method_options_offer_witness :
  map option_label (method_options ["GET"; "POST"] "PURGE") = ["PURGE"; "GET"; "POST"]
  ∧ NoDup (map option_key (method_options ["GET"; "POST"] "PURGE")).
Proof.
  destruct (method_options_offer ["GET"; "POST"] "PURGE") as (_ & _ & Hcustom & Hkeys).
  split.
  - rewrite Hcustom; [reflexivity|]. apply (bool_decide_unpack _). reflexivity.
  - apply Hkeys. apply (bool_decide_unpack _). reflexivity.
Defined.

(** ** Sequences of edits *)

(** X14: when an edit is applied to the snapshot that an earlier edit
    passed to [onChange], the result carries the value of the later edit;
    it carries the value of the earlier edit too if the two edits are of
    different fields, and all other properties are those of the original
    result.  Edits of different fields give the same snapshot in either
    order. *)
Theorem edits_compose (r r1 r12 : Result) (e1 e2 : Edit) :
  r1 ∈ on_edit r e1 → r12 ∈ on_edit r1 e2 →
  r12 !! edit_field e2 = Some (edit_value e2)
  ∧ (edit_field e1 ≠ edit_field e2 → r12 !! edit_field e1 = Some (edit_value e1))
  ∧ (∀ field, field ≠ edit_field e1 → field ≠ edit_field e2 → r12 !! field = r !! field)
  ∧ (edit_field e1 ≠ edit_field e2 →
     ∀ r2 r21, r2 ∈ on_edit r e2 → r21 ∈ on_edit r2 e1 → r21 = r12).
Proof.
  intros ->%on_edit_calls ->%on_edit_calls. split_and!.
  - apply lookup_insert_eq.
  - intros Hne. rewrite lookup_insert_ne by done. apply lookup_insert_eq.
  - intros field H1 H2. by rewrite !lookup_insert_ne.
  - intros Hne r2 r21 ->%on_edit_calls ->%on_edit_calls. by apply insert_insert_ne.
Qed.

(** The url and then the method of the paused request are edited. *)
Lemma edits_compose_witness :
  ∃ r12 : Result, r12 !! "method" = Some (VString "POST")
         ∧ r12 !! "url" = Some (VString "https://example.org/")
         ∧ r12 !! "headers" = Some (VHeaders Scenario.paused_headers).
Proof.
  pose (r1 := <["url" := VString "https://example.org/"]> Scenario.paused).
  pose (r12 := <["method" := VString "POST"]> r1).
  destruct (edits_compose Scenario.paused r1 r12
              (UrlChange "https://example.org/") (MethodChange "POST"))
    as (Hm & Hu & Hother & _).
  - apply list_elem_of_here.
  - apply list_elem_of_here.
  - exists r12. split; [exact Hm|]. split; [apply Hu; discriminate|].
    rewrite Hother; [reflexivity | discriminate | discriminate].
Defined.

(** ** The hostname in the pill *)

Lemma space_dots_app (a b : string) :
  space_dots (a +:+ b) = space_dots a +:+ space_dots b.
Proof.
  induction a as [|x a IH]; [done|]. rewrite FridaExtra.append_cons. simpl.
  destruct (Ascii.eqb x "."); rewrite IH; reflexivity.
Qed.

Lemma ascii_part_app (a b : string) :
  ascii_part (a +:+ b) = ascii_part a +:+ ascii_part b.
Proof.
  induction a as [|x a IH]; [done|]. rewrite FridaExtra.append_cons. cbn [ascii_part].
  destruct (nat_of_ascii x <? 128)%nat; by rewrite IH.
Qed.

(** X15: the hostname of the pill is the empty string for a request
    without hostname.  Otherwise every full stop of the hostname is put
    between two punctuation spaces and nothing else is changed: a hostname
    without a full stop is shown as it is, the text of a hostname made of
    two parts is the texts of the parts one after the other, and the ASCII
    characters of the text are those of the hostname. *)
Theorem pill_hostname_dots :
  pill_hostname None = ""
  ∧ pill_hostname (Some ".") = punctuation_space +:+ "." +:+ punctuation_space
  ∧ (∀ a b, pill_hostname (Some (a +:+ b))
            = pill_hostname (Some a) +:+ pill_hostname (Some b))
  ∧ (∀ s, Frida.str_includes s "." = false → pill_hostname (Some s) = s)
  ∧ (∀ s, ascii_part (pill_hostname (Some s)) = ascii_part s).
Proof.
  split_and!; try done.
  - intros a b. apply space_dots_app.
  - intros s. change (pill_hostname (Some s)) with (space_dots s).
    induction s as [|x s IH]; [done|]. cbn [Frida.str_includes space_dots].
    intros [Hp Hs]%orb_false_iff. rewrite IH by done.
    destruct (Ascii.eqb_spec x ".") as [->|]; [|done].
    simpl in Hp. by destruct s.
  - intros s. change (pill_hostname (Some s)) with (space_dots s).
    induction s as [|x s IH]; [done|]. cbn [space_dots].
    destruct (Ascii.eqb_spec x ".") as [->|].
    + rewrite ascii_part_app. change (ascii_part punctuation_space) with "".
      change ("" +:+ ?t) with t. cbn [ascii_part].
      change (nat_of_ascii "." <? 128)%nat with true. cbn iota.
      rewrite ascii_part_app. change (ascii_part punctuation_space) with "".
      change ("" +:+ ?t) with t. by rewrite IH.
    + cbn [ascii_part]. by rewrite IH.
Qed.

Lemma pill_hostname_dots_witness :
  pill_hostname (Some "localhost") = "localhost"
  ∧ ascii_part (pill_hostname (Some "api.example.com")) = "api.example.com".
Proof.
  destruct pill_hostname_dots as (_ & _ & _ & Hplain & Hascii).
  split.
  - apply Hplain. reflexivity.
  - rewrite Hascii. reflexivity.
Defined.

End BreakpointExtra.
